(** * Search subsystem of College_Media: a shallow embedding

    The search layer of the backend consists of two JavaScript classes:
    - [SearchService] (backend/services/searchService.js), the read-time
      query layer over the Elasticsearch client, with raw write passthroughs;
    - [IndexSyncWorker] (services/indexSyncWorker.js), which copies MongoDB
      posts, users and aggregated hashtags into the search indices.

    JavaScript values are modelled as a small JSON-like inductive type with
    objects as association lists (the spread operator [...src] is an in-place
    overwrite of existing keys followed by appends, as in JS).  Numbers are
    real numbers; [await] on a client call is a step of a state and error
    monad whose state is the trace of requests sent to the engine, and whose
    responses come from an engine oracle. *)

From Stdlib Require Import String Ascii List Bool Arith Lia Reals Lra Rpower Sorted Permutation NArith.
Import ListNotations.

Set Warnings "-register-all".

Open Scope string_scope.
Open Scope list_scope.
Open Scope nat_scope.

(** ** JavaScript values *)

Module Js.

Inductive jsval : Type :=
| JUndef
| JNull
| JBool (b : bool)
| JNum (x : R)
| JStr (s : string)
| JOid (hex : string)              (** a MongoDB ObjectId, by its hex text *)
| JArr (l : list jsval)
| JObj (fields : list (string * jsval)).

Definition obj := list (string * jsval).

(** Property read [o.k]; a missing key reads as [undefined]. *)
Fixpoint get (o : obj) (k : string) : jsval :=
  match o with
  | [] => JUndef
  | (k', v) :: r => if String.eqb k k' then v else get r k
  end.

(** Property write [o.k = v]: an existing key keeps its position. *)
Fixpoint set (o : obj) (k : string) (v : jsval) : obj :=
  match o with
  | [] => [(k, v)]
  | (k', v') :: r =>
      if String.eqb k k' then (k', v) :: r else (k', v') :: set r k v
  end.

(** [{ ...o, ...src }]: the own properties of [src] written in order. *)
Definition spread (o src : obj) : obj :=
  fold_left (fun acc kv => set acc (fst kv) (snd kv)) src o.

(** Optional chaining on a property: [v?.k]. *)
Definition get_opt (v : jsval) (k : string) : jsval :=
  match v with
  | JObj o => get o k
  | _ => JUndef
  end.

(** JS truthiness.  The falsy values are [undefined], [null], [false],
    [0] (and [NaN], which the model of numbers does not contain) and [""]. *)
Definition truthy (v : jsval) : bool :=
  match v with
  | JUndef | JNull => false
  | JBool b => b
  | JNum x => if Req_EM_T x 0%R then false else true
  | JStr s => negb (String.eqb s "")
  | JOid _ | JArr _ | JObj _ => true
  end.

(** [a || b] *)
Definition or (a b : jsval) : jsval := if truthy a then a else b.

(** [s.replace('#', '')]: the first occurrence only. *)
Fixpoint replace_first_hash (s : string) : string :=
  match s with
  | EmptyString => EmptyString
  | String c r =>
      if Ascii.eqb c "#"%char then r else String c (replace_first_hash r)
  end.

End Js.

Import Js.

(** ** Score functions of the sync worker *)

(** A post as the worker reads it from MongoDB ([.lean()] after
    [.populate('author', 'username displayName')]).  The counters are
    optional as in the stored documents: [post.likes?.length || post.likeCount
    || 0] reads the array first, then the cached count. *)
(** The populated [author]: [_id], [username], [displayName]. *)
Record Author := mkAuthor {
  author_id : option string;           (** hex of [author._id] *)
  author_username : jsval;
  author_displayName : jsval
}.

Record Post := mkPost {
  post_id : string;                    (** hex of [_id] *)
  post_author : option Author;
  post_userId : jsval;
  post_caption : jsval;
  post_content : jsval;
  post_tags : jsval;
  post_category : jsval;
  post_mediaType : jsval;
  post_visibility : jsval;
  post_tenantId : option string;
  post_likes : option (list string);
  post_likeCount : option nat;
  post_comments : option (list string);
  post_commentCount : option nat;
  post_shares : option nat;
  post_views : option nat;
  post_createdAt : R;                  (** [getTime()] of [createdAt], in ms *)
  post_updatedAt : jsval;
  post_location : option (R * R);      (** [coordinates[0]], [coordinates[1]] *)
  post_embedding : jsval;
  post_hashtags : list string          (** the stored [hashtags] array *)
}.

(** [a || b] on counters: [undefined] and [0] fall through. *)
Definition or_count (a : option nat) (b : nat) : nat :=
  match a with
  | Some (S n) => S n
  | _ => b
  end.

Definition post_like_count (p : Post) : nat :=
  or_count (option_map (@length string) (post_likes p)) (or_count (post_likeCount p) 0).

Definition post_comment_count (p : Post) : nat :=
  or_count (option_map (@length string) (post_comments p)) (or_count (post_commentCount p) 0).

Definition post_share_count (p : Post) : nat := or_count (post_shares p) 0.

(** [(Date.now() - new Date(t).getTime()) / (1000 * 60 * 60)] *)
Definition ageInHours (now t : R) : R := ((now - t) / (1000 * 60 * 60))%R.

(** [calculateEngagementScore(post)], at the instant [now] of [Date.now()]. *)
Definition calculateEngagementScore (now : R) (post : Post) : R :=
  let likes := INR (post_like_count post) in
  let comments := INR (post_comment_count post) in
  let shares := INR (post_share_count post) in
  let views := INR (or_count (post_views post) 1) in
  let engagement := ((likes * 1 + comments * 3 + shares * 5) / views)%R in
  let decay := Rpower 0.95 (ageInHours now (post_createdAt post) / 24) in
  (engagement * decay * 100)%R.

(** [calculatePopularityScore(post)] *)
Definition calculatePopularityScore (post : Post) : nat :=
  post_like_count post * 1 + post_comment_count post * 2 + post_share_count post * 3.

(** [calculateTrendScore(count, lastUsed)], at the instant [now]. *)
Definition calculateTrendScore (now count lastUsed : R) : R :=
  let age := ageInHours now lastUsed in
  let recencyBoost := Rmax 0 (1 - age / 168) in
  (count * (1 + recencyBoost))%R.

(** ** The Elasticsearch client and its effects *)

Module Engine.

Definition POSTS := "college_media_posts".
Definition USERS := "college_media_users".
Definition COMMENTS := "college_media_comments".
Definition HASHTAGS := "college_media_hashtags".
Definition SEARCH_HISTORY := "college_media_search_history".

(** What a rejected promise carries. *)
Inductive error : Type :=
| ConnectionError                  (** engine unreachable, timeout *)
| ResponseError (statusCode : nat) (** an HTTP error answer, e.g. 404 *)
| TypeError                        (** raised by the JS code itself *)
| RangeError.                      (** likewise, e.g. by [toISOString] *)

Inductive result (A : Type) : Type :=
| Ok (a : A)
| Throw (e : error).
Arguments Ok {A} a.
Arguments Throw {A} e.

Record hit := mkHit {
  hit_id : string;          (** [hit._id] *)
  hit_index : string;       (** [hit._index] *)
  hit_score : R;            (** [hit._score] *)
  hit_source : obj;         (** [hit._source] *)
  hit_highlight : jsval     (** [hit.highlight] *)
}.

Record search_response := mkSearchResponse {
  res_hits : list hit;              (** [result.hits.hits] *)
  res_total : nat;                  (** [result.hits.total.value] *)
  res_took : nat;                   (** [result.took] *)
  res_aggregations : option obj     (** [result.aggregations] *)
}.

Record get_response := mkGetResponse { get_source : obj }.

Record bulk_response := mkBulkResponse {
  bulk_errors : bool;               (** [result.errors] *)
  bulk_items : list obj             (** [result.items] *)
}.

(** Requests as sent over the wire. *)
Inductive request : Type :=
| ReqSearch (index : list string) (body : obj)
| ReqGet (index id : string)
| ReqIndex (index : string) (id : option string) (body : obj) (refresh : bool)
| ReqUpdate (index id : string) (doc : obj)
| ReqDelete (index id : string)
| ReqBulk (operations : list obj) (refresh : bool).

(** What the program does that can be observed: requests to the engine and
    lines written by [console.error]. *)
Inductive event : Type :=
| Req (r : request)
| Log (message : string).

(** The engine's answers, as an oracle on the request. *)
Record engine := mkEngine {
  es_search : list string -> obj -> result search_response;
  es_get : string -> string -> result get_response;
  es_index : string -> option string -> obj -> result unit;
  es_update : string -> string -> obj -> result unit;
  es_delete : string -> string -> result unit;
  es_bulk : list obj -> result bulk_response
}.

(** An [async] computation: runs on the trace of events so far. *)
Definition M (A : Type) : Type := list event -> result A * list event.

Definition ret {A} (a : A) : M A := fun tr => (Ok a, tr).

Definition bind {A B} (m : M A) (k : A -> M B) : M B :=
  fun tr =>
    match m tr with
    | (Ok a, tr') => k a tr'
    | (Throw e, tr') => (Throw e, tr')
    end.

Definition throw {A} (e : error) : M A := fun tr => (Throw e, tr).

(** [try { m } catch (e) { h(e) }] *)
Definition catch {A} (m : M A) (h : error -> M A) : M A :=
  fun tr =>
    match m tr with
    | (Throw e, tr') => h e tr'
    | r => r
    end.

Definition lift {A} (r : result A) : M A := fun tr => (r, tr).

Definition log (msg : string) : M unit := fun tr => (Ok tt, tr ++ [Log msg]).

Notation "x <- m ;; k" := (bind m (fun x => k))
  (at level 61, m at next level, right associativity).
Notation "m ;;; k" := (bind m (fun _ => k))
  (at level 61, right associativity).

Fixpoint mapM {A B} (f : A -> M B) (l : list A) : M (list B) :=
  match l with
  | [] => ret []
  | x :: r => y <- f x ;; ys <- mapM f r ;; ret (y :: ys)
  end.

Fixpoint filterM {A} (f : A -> M bool) (l : list A) : M (list A) :=
  match l with
  | [] => ret []
  | x :: r =>
      b <- f x ;; ys <- filterM f r ;; ret (if b then x :: ys else ys)
  end.

(** [m] resolves, if it does, with a value satisfying [Q]. *)
Definition yields {A} (Q : A -> Prop) (m : M A) : Prop :=
  forall tr, match fst (m tr) with Ok v => Q v | Throw _ => True end.

(** [m] only adds events to the trace. *)
Definition appends {A} (m : M A) : Prop :=
  forall tr, exists ev, snd (m tr) = tr ++ ev.

(** [m] only adds events, and every event it adds satisfies [Q]. *)
Definition adds {A} (Q : event -> Prop) (m : M A) : Prop :=
  forall tr, exists ev, snd (m tr) = tr ++ ev /\ Forall Q ev.

Section Client.
Variable es : engine.

Definition send {A} (r : request) (answer : result A) : M A :=
  fun tr => (answer, tr ++ [Req r]).

Definition client_search (index : list string) (body : obj) :=
  send (ReqSearch index body) (es_search es index body).
Definition client_get (index id : string) :=
  send (ReqGet index id) (es_get es index id).
Definition client_index (index : string) (id : option string) (body : obj) (refresh : bool) :=
  send (ReqIndex index id body refresh) (es_index es index id body).
Definition client_update (index id : string) (doc : obj) :=
  send (ReqUpdate index id doc) (es_update es index id doc).
Definition client_delete (index id : string) :=
  send (ReqDelete index id) (es_delete es index id).
Definition client_bulk (operations : list obj) (refresh : bool) :=
  send (ReqBulk operations refresh) (es_bulk es operations).

End Client.

End Engine.

Import Engine.

(** A JS number holding a count. *)
Definition num (n : nat) : jsval := JNum (INR n).

Definition strs (l : list string) : jsval := JArr (map JStr l).

(** [String(v)], as in a template literal; [numberToString] is the
    engine's formatting of numbers. *)
Definition js_to_string (numberToString : R -> string) : jsval -> string :=
  fix go (v : jsval) : string :=
    match v with
    | JUndef => "undefined"
    | JNull => "null"
    | JBool true => "true"
    | JBool false => "false"
    | JNum x => numberToString x
    | JStr s => s
    | JOid h => h
    | JArr l =>
        let elt := fun w => match w with JUndef | JNull => "" | _ => go w end in
        String.concat "," (map elt l)
    | JObj _ => "[object Object]"
    end.

(** ** SearchService (backend/services/searchService.js) *)

Module SearchService.

Record SearchOptions := mkSearchOptions {
  so_type : string;                 (** default 'all' *)
  so_filters : obj;                 (** default {} *)
  so_sort : string;                 (** default 'relevance' *)
  so_from : nat;                    (** default 0 *)
  so_size : nat;                    (** default 20 *)
  so_userId : jsval;                (** default null *)
  so_tenantId : jsval;              (** default null *)
  so_includeAggregations : bool     (** default true *)
}.

Definition default_search_options :=
  mkSearchOptions "all" [] "relevance" 0 20 JNull JNull true.

Record ListOptions := mkListOptions {
  lo_type : string;
  lo_size : nat;
  lo_tenantId : jsval
}.

(** [autocomplete] defaults: type 'all', size 10, tenantId null. *)
Definition default_autocomplete_options := mkListOptions "all" 10 JNull.

Definition tenant_filter (tenantId : jsval) : jsval :=
  JArr (if truthy tenantId then [JObj [("term", JObj [("tenantId", tenantId)])]] else []).

Definition term (field : string) (v : jsval) : jsval :=
  JObj [("term", JObj [(field, v)])].

Definition getSearchIndices (type : string) : list string :=
  if String.eqb type "posts" then [POSTS]
  else if String.eqb type "users" then [USERS]
  else if String.eqb type "comments" then [COMMENTS]
  else if String.eqb type "hashtags" then [HASHTAGS]
  else [POSTS; USERS; HASHTAGS].

(** [filters.hashtags && filters.hashtags.length > 0] *)
Definition nonempty_list (v : jsval) : bool :=
  truthy v &&
  match v with
  | JArr l => Nat.ltb 0 (List.length l)
  | JStr s => Nat.ltb 0 (String.length s)
  | _ => false
  end.

Definition buildSearchQuery (query : jsval) (filters : obj) (tenantId : jsval) : jsval :=
  let must :=
    if truthy query then
      [JObj [("multi_match", JObj [
         ("query", query);
         ("fields", strs ["caption^3"; "content^2"; "username^2"; "displayName"; "bio"; "tags^2"]);
         ("type", JStr "best_fields");
         ("fuzziness", JStr "AUTO")])]]
    else [] in
  let filter :=
    (if truthy (get filters "category") then [term "category" (get filters "category")] else [])
    ++ (if truthy (get filters "mediaType") then [term "mediaType" (get filters "mediaType")] else [])
    ++ (if truthy (get filters "dateFrom")
        then [JObj [("range", JObj [("createdAt", JObj [("gte", get filters "dateFrom")])])]] else [])
    ++ (if truthy (get filters "dateTo")
        then [JObj [("range", JObj [("createdAt", JObj [("lte", get filters "dateTo")])])]] else [])
    ++ (match get filters "verified" with
        | JUndef => []
        | v => [term "verified" v]
        end)
    ++ (if nonempty_list (get filters "hashtags")
        then [JObj [("terms", JObj [("hashtags", get filters "hashtags")])]] else [])
    ++ (if truthy tenantId then [term "tenantId" tenantId] else []) in
  JObj [("bool", JObj [
    ("must", JArr (match must with [] => [JObj [("match_all", JObj [])]] | _ => must end));
    ("filter", JArr filter)])].

Definition desc (field : string) : jsval := JObj [(field, JStr "desc")].

Definition buildSortConfig (sort : string) : jsval :=
  if String.eqb sort "date" then JArr [desc "createdAt"]
  else if String.eqb sort "popular" then JArr [desc "likes"; desc "createdAt"]
  else if String.eqb sort "engagement" then JArr [desc "engagementScore"]
  else JArr [JStr "_score"; desc "createdAt"].

Definition terms_agg (field : string) (size : nat) : jsval :=
  JObj [("terms", JObj [("field", JStr field); ("size", num size)])].

Definition buildAggregations (type : string) : obj :=
  (if String.eqb type "posts" || String.eqb type "all" then
     [("categories", terms_agg "category" 20);
      ("mediaTypes", terms_agg "mediaType" 10);
      ("hashtags", terms_agg "hashtags" 30);
      ("dateHistogram", JObj [("date_histogram", JObj [
         ("field", JStr "createdAt");
         ("calendar_interval", JStr "day");
         ("min_doc_count", num 1)])])]
   else [])
  ++ (if String.eqb type "users" || String.eqb type "all" then
        [("colleges", terms_agg "college" 20);
         ("departments", terms_agg "department" 20)]
      else []).

(** [{ id: hit._id, index: hit._index, score: hit._score, ...hit._source,
      highlights: hit.highlight }] *)
Definition format_hit (h : hit) : jsval :=
  JObj (set (spread [("id", JStr (hit_id h)); ("index", JStr (hit_index h));
                     ("score", JNum (hit_score h))] (hit_source h))
            "highlights" (hit_highlight h)).

(** Property read [v.k] on any value: [undefined] and [null] have no
    properties, and reading one of theirs throws a TypeError. *)
Definition prop (v : jsval) (k : string) : result jsval :=
  match v with
  | JUndef | JNull => Throw TypeError
  | _ => Ok (get_opt v k)
  end.

(** [b => ({ value: b.key, count: b.doc_count })] *)
Definition format_bucket (b : jsval) : result jsval :=
  match prop b "key", prop b "doc_count" with
  | Ok k, Ok c => Ok (JObj [("value", k); ("count", c)])
  | Throw e, _ | _, Throw e => Throw e
  end.

Fixpoint format_bucket_list (bs : list jsval) : result (list jsval) :=
  match bs with
  | [] => Ok []
  | b :: r =>
      match format_bucket b with
      | Throw e => Throw e
      | Ok f =>
          match format_bucket_list r with
          | Ok fs => Ok (f :: fs)
          | Throw e => Throw e
          end
      end
  end.

(** [agg.buckets.map(...)]; a non-array [buckets] has no [map] method. *)
Definition format_buckets (buckets : jsval) : result jsval :=
  match buckets with
  | JArr bs =>
      match format_bucket_list bs with
      | Ok fs => Ok (JArr fs)
      | Throw e => Throw e
      end
  | _ => Throw TypeError
  end.

(** The loop over [Object.entries(result.aggregations)]: [agg.buckets] reads
    a property of [agg]. *)
Fixpoint format_facets (aggs : obj) : result obj :=
  match aggs with
  | [] => Ok []
  | (key, agg) :: r =>
      match format_facets r with
      | Throw e => Throw e
      | Ok rest =>
          match prop agg "buckets" with
          | Throw e => Throw e
          | Ok bk =>
              if truthy bk then
                match format_buckets bk with
                | Ok f => Ok ((key, f) :: rest)
                | Throw e => Throw e
                end
              else Ok rest
          end
      end
  end.

Definition formatSearchResults (r : search_response) (type : string) : result obj :=
  let response := [("total", num (res_total r));
                   ("hits", JArr (map format_hit (res_hits r)));
                   ("took", num (res_took r))] in
  match res_aggregations r with
  | None => Ok response
  | Some aggs =>
      match format_facets aggs with
      | Ok f => Ok (set response "facets" (JObj f))
      | Throw e => Throw e
      end
  end.

Section Methods.
Variable es : engine.
(** [Date.now()] and [Date.prototype.toISOString], and number formatting. *)
Variable now : R.
Variable toISOString : R -> string.
Variable numberToString : R -> string.

(** [trackSearch]: a best-effort write whose failures are swallowed. *)
Definition trackSearch (userId query : jsval) (filters : obj) (resultCount : nat)
    (tenantId : jsval) : M unit :=
  catch
    (client_index es SEARCH_HISTORY None
       [("userId", userId); ("query", query); ("filters", JObj filters);
        ("resultCount", num resultCount); ("tenantId", tenantId);
        ("timestamp", JStr (toISOString now))] false ;;;
     ret tt)
    (fun _ => log "[SearchService] Track search error:").

(** [search(query, options)].  The call to [trackSearch] is not awaited;
    its own [catch] keeps its outcome from ever reaching [search]. *)
Definition search (query : jsval) (o : SearchOptions) : M obj :=
  catch
    (let type := so_type o in
     let indices := getSearchIndices type in
     let esQuery := buildSearchQuery query (so_filters o) (so_tenantId o) in
     let sortConfig := buildSortConfig (so_sort o) in
     let hl := JObj [("pre_tags", strs ["<mark>"]); ("post_tags", strs ["</mark>"])] in
     let searchBody0 :=
       [("query", esQuery); ("from", num (so_from o)); ("size", num (so_size o));
        ("sort", sortConfig);
        ("highlight", JObj [("fields", JObj [("caption", hl); ("content", hl); ("bio", hl)])])] in
     let searchBody :=
       if so_includeAggregations o
       then set searchBody0 "aggs" (JObj (buildAggregations type))
       else searchBody0 in
     r <- client_search es indices searchBody ;;
     (if truthy (so_userId o)
      then trackSearch (so_userId o) query (so_filters o) (res_total r) (so_tenantId o)
      else ret tt) ;;;
     lift (formatSearchResults r type))
    (fun e => log "[SearchService] Search error:" ;;; throw e).

(** [hit._source.caption?.substring(0, 100)] *)
Definition caption_text (v : jsval) : result jsval :=
  match v with
  | JUndef | JNull => Ok JUndef
  | JStr s => Ok (JStr (substring 0 100 s))
  | _ => Throw TypeError
  end.

(** [prefix.replace('#', '')]: only strings have [replace]. *)
Definition replace_hash (v : jsval) : result jsval :=
  match v with
  | JStr s => Ok (JStr (replace_first_hash s))
  | _ => Throw TypeError
  end.

Definition prefix_body (prefix : jsval) (fields : list string) (o : ListOptions)
    (source : list string) : obj :=
  [("query", JObj [("bool", JObj [
      ("must", JArr [JObj [("multi_match", JObj [
          ("query", prefix); ("type", JStr "phrase_prefix"); ("fields", strs fields)])]]);
      ("filter", tenant_filter (lo_tenantId o))])]);
   ("size", num (lo_size o));
   ("_source", strs source)].

(** The body of the hashtag query of [autocomplete]. *)
Definition hashtag_prefix_body (tag : jsval) (o : ListOptions) : obj :=
  [("query", JObj [("bool", JObj [
      ("must", JArr [JObj [("prefix", JObj [("tag.keyword", tag)])]]);
      ("filter", tenant_filter (lo_tenantId o))])]);
   ("size", num (lo_size o));
   ("sort", JArr [desc "count"]);
   ("_source", strs ["tag"; "count"])].

Definition post_suggestion (h : hit) : M jsval :=
  t <- lift (caption_text (get (hit_source h) "caption")) ;;
  ret (JObj [("type", JStr "post"); ("text", t); ("category", get (hit_source h) "category")]).

Definition user_suggestion (h : hit) : jsval :=
  JObj [("type", JStr "user"); ("text", get (hit_source h) "username");
        ("displayName", get (hit_source h) "displayName");
        ("verified", get (hit_source h) "verified")].

Definition hashtag_suggestion (h : hit) : jsval :=
  JObj [("type", JStr "hashtag");
        ("text", JStr ("#" ++ js_to_string numberToString (get (hit_source h) "tag"))%string);
        ("count", get (hit_source h) "count")].

(** [autocomplete(prefix, options)] *)
Definition autocomplete (prefix : jsval) (o : ListOptions) : M (list jsval) :=
  let type := lo_type o in
  catch
    (s1 <- (if String.eqb type "all" || String.eqb type "posts" then
              r <- client_search es [POSTS]
                     (prefix_body prefix ["caption.autocomplete"; "tags"] o ["caption"; "category"]) ;;
              mapM post_suggestion (res_hits r)
            else ret []) ;;
     s2 <- (if String.eqb type "all" || String.eqb type "users" then
              r <- client_search es [USERS]
                     (prefix_body prefix ["username.autocomplete"; "displayName.autocomplete"] o
                        ["username"; "displayName"; "verified"]) ;;
              ret (map user_suggestion (res_hits r))
            else ret []) ;;
     s3 <- (if String.eqb type "all" || String.eqb type "hashtags" then
              tag <- lift (replace_hash prefix) ;;
              r <- client_search es [HASHTAGS] (hashtag_prefix_body tag o) ;;
              ret (map hashtag_suggestion (res_hits r))
            else ret []) ;;
     ret (firstn (lo_size o) (s1 ++ s2 ++ s3)))
    (fun _ => log "[SearchService] Autocomplete error:" ;;; ret []).

Definition exclude_embedding : jsval := JObj [("excludes", strs ["embedding"])].

Definition knn_body (query_vector : jsval) (k num_candidates : nat) : obj :=
  [("knn", JObj [("field", JStr "embedding"); ("query_vector", query_vector);
                 ("k", num k); ("num_candidates", num num_candidates)]);
   ("_source", exclude_embedding)].

Definition posts_or (type other : string) : string :=
  if String.eqb type "posts" then POSTS else other.



(** [findSimilar(id, type, size)] *)
Definition findSimilar (id type : string) (size : nat) : M (list jsval) :=
  catch
    (let index := posts_or type USERS in
     doc <- client_get es index id ;;
     if negb (truthy (get (get_source doc) "embedding")) then ret [] else
     r <- client_search es [index] (knn_body (get (get_source doc) "embedding") (size + 1) (size * 5)) ;;
     ret (map (fun h => JObj (spread [("id", JStr (hit_id h)); ("score", JNum (hit_score h))] (hit_source h)))
              (firstn size (filter (fun h => negb (String.eqb (hit_id h) id)) (res_hits r)))))
    (fun _ => log "[SearchService] Find similar error:" ;;; ret []).

Record TrendingOptions := mkTrendingOptions {
  to_type : string;     (** default 'posts' *)
  to_size : nat;        (** default 20 *)
  to_hours : nat;       (** default 24 *)
  to_tenantId : jsval   (** default null *)
}.

(** [new Date(t).toISOString()]: a time value beyond 8.64e15 ms either side
    of the epoch gives an Invalid Date, whose [toISOString] throws a
    RangeError. *)
Definition date_iso (t : R) : result string :=
  if Rle_dec (Rabs t) (864 * 10 ^ 13)%R then Ok (toISOString t) else Throw RangeError.

(** [getTrending(options)] *)
Definition getTrending (o : TrendingOptions) : M (list jsval) :=
  catch
    (let since := (now - INR (to_hours o) * 60 * 60 * 1000)%R in
     iso <- lift (date_iso since) ;;
     r <- client_search es [posts_or (to_type o) HASHTAGS]
            [("query", JObj [("bool", JObj [
                ("must", JArr [JObj [("range", JObj [("createdAt", JObj [("gte", JStr iso)])])]]);
                ("filter", tenant_filter (to_tenantId o))])]);
             ("sort", JArr [desc "engagementScore"; desc "likes"]);
             ("size", num (to_size o));
             ("_source", exclude_embedding)] ;;
     ret (map (fun h => JObj (spread [("id", JStr (hit_id h))] (hit_source h))) (res_hits r)))
    (fun _ => log "[SearchService] Trending error:" ;;; ret []).

(** [indexDocument(index, id, document)] *)
Definition indexDocument (index id : string) (document : obj) : M bool :=
  catch (client_index es index (Some id) document true ;;; ret true)
        (fun _ => log "[SearchService] Index error:" ;;; ret false).

(** [updateDocument(index, id, updates)] *)
Definition updateDocument (index id : string) (updates : obj) : M bool :=
  catch (client_update es index id [("doc", JObj updates)] ;;; ret true)
        (fun _ => log "[SearchService] Update error:" ;;; ret false).

(** [deleteDocument(index, id)] *)
Definition deleteDocument (index id : string) : M bool :=
  catch (client_delete es index id ;;; ret true)
        (fun _ => log "[SearchService] Delete error:" ;;; ret false).

(** [i => i.index.error]: reading [error] of a missing [index] throws. *)
Definition item_has_error (i : obj) : M bool :=
  match get i "index" with
  | JUndef | JNull => throw TypeError
  | v => ret (truthy (get_opt v "error"))
  end.

(** [documents.flatMap(doc => [{ index: { _index: index, _id: doc._id || doc.id } }, doc])] *)
Definition bulk_operations (index : string) (documents : list obj) : list obj :=
  flat_map (fun doc =>
    [[("index", JObj [("_index", JStr index); ("_id", Js.or (get doc "_id") (get doc "id"))])];
     doc]) documents.

(** [bulkIndex(index, documents)] *)
Definition bulkIndex (index : string) (documents : list obj) : M obj :=
  catch
    (r <- client_bulk es (bulk_operations index documents) true ;;
     errs <- (if bulk_errors r then filterM item_has_error (bulk_items r) else ret []) ;;
     ret [("success", JBool (negb (bulk_errors r)));
          ("indexed", num (List.length documents));
          ("errors", JArr (map JObj errs))])
    (fun e => log "[SearchService] Bulk index error:" ;;; throw e).

End Methods.

End SearchService.

(** ** IndexSyncWorker (services/indexSyncWorker.js) *)

Module IndexSyncWorker.

(** A user as read with [.select('-password -tokens').lean()]. *)
Record User := mkUser {
  user_id : string;                    (** hex of [_id] *)
  user_username : jsval;
  user_displayName : jsval;
  user_name : jsval;
  user_firstName : jsval;
  user_lastName : jsval;
  user_bio : jsval;
  user_email : jsval;
  user_college : jsval;
  user_department : jsval;
  user_tenantId : option string;
  user_interests : jsval;
  user_skills : jsval;
  user_followers : jsval;
  user_followerCount : jsval;
  user_following : jsval;
  user_followingCount : jsval;
  user_postCount : jsval;
  user_verified : jsval;
  user_createdAt : jsval;
  user_lastActive : jsval;
  user_updatedAt : jsval;
  user_embedding : jsval
}.

Definition batchSize := 100.

Definition is_word_char (c : ascii) : bool :=
  let n := nat_of_ascii c in
  (Nat.leb 48 n && Nat.leb n 57) || (Nat.leb 65 n && Nat.leb n 90) ||
  (Nat.leb 97 n && Nat.leb n 122) || Nat.eqb n 95.

Definition lower_char (c : ascii) : ascii :=
  let n := nat_of_ascii c in
  if Nat.leb 65 n && Nat.leb n 90 then ascii_of_nat (n + 32) else c.

Fixpoint lower (s : string) : string :=
  match s with
  | EmptyString => EmptyString
  | String c r => String (lower_char c) (lower r)
  end.

(** The matches of the global regular expression [/#[\w]+/g], left to
    right; [cur] holds the word characters read since the last ['#']. *)
Fixpoint hashtag_matches (s : string) (cur : option string) : list string :=
  let emit := match cur with
              | Some (String _ _ as w) => ["#" ++ w]%string
              | _ => []
              end in
  match s with
  | EmptyString => emit
  | String c r =>
      match cur with
      | Some w =>
          if is_word_char c then hashtag_matches r (Some (w ++ String c EmptyString)%string)
          else emit ++ (if Ascii.eqb c "#"%char then hashtag_matches r (Some "")
                        else hashtag_matches r None)
      | None =>
          if Ascii.eqb c "#"%char then hashtag_matches r (Some "") else hashtag_matches r None
      end
  end.

(** [extractHashtags(text)]: [text.match] exists on strings only. *)
Definition extractHashtags (text : jsval) : result (list string) :=
  if negb (truthy text) then Ok [] else
  match text with
  | JStr s => Ok (map lower (hashtag_matches s None))
  | _ => Throw TypeError
  end.

(** [post.visibility !== 'private'] *)
Definition not_private (v : jsval) : bool :=
  match v with
  | JStr s => negb (String.eqb s "private")
  | _ => true
  end.

Definition opt_str (o : option string) : jsval :=
  match o with Some s => JStr s | None => JUndef end.

(** [v?.length] on a stored array *)
Definition length_opt (v : jsval) : jsval :=
  match v with
  | JArr l => num (List.length l)
  | JStr s => num (String.length s)
  | JObj o => get o "length"
  | _ => JUndef
  end.

Section Worker.
Variable es : engine.
Variable now : R.

(** [transformPost(post)] *)
Definition transformPost (post : Post) : result obj :=
  match extractHashtags (post_caption post) with
  | Throw e => Throw e
  | Ok hashtags =>
  Ok [("_id", JStr (post_id post));
      ("userId", Js.or (match post_author post with
                        | Some a => opt_str (author_id a)
                        | None => JUndef end) (post_userId post));
      ("username", match post_author post with Some a => author_username a | None => JUndef end);
      ("displayName", match post_author post with Some a => author_displayName a | None => JUndef end);
      ("caption", post_caption post);
      ("content", post_content post);
      ("tags", Js.or (post_tags post) (JArr []));
      ("hashtags", strs hashtags);
      ("category", post_category post);
      ("mediaType", Js.or (post_mediaType post) (JStr "text"));
      ("visibility", Js.or (post_visibility post) (JStr "public"));
      ("tenantId", opt_str (post_tenantId post));
      ("likes", num (post_like_count post));
      ("comments", num (post_comment_count post));
      ("shares", num (post_share_count post));
      ("views", num (or_count (post_views post) 0));
      ("engagementScore", JNum (calculateEngagementScore now post));
      ("popularityScore", num (calculatePopularityScore post));
      ("createdAt", JNum (post_createdAt post));
      ("updatedAt", post_updatedAt post);
      ("isPublic", JBool (not_private (post_visibility post)));
      ("location", match post_location post with
                   | Some (lon, lat) => JObj [("lat", JNum lat); ("lon", JNum lon)]
                   | None => JNull end);
      ("embedding", Js.or (post_embedding post) JNull)]
  end.

(** [transformUser(user)] *)
Definition transformUser (user : User) : result obj :=
  Ok [("_id", JStr (user_id user));
      ("username", user_username user);
      ("displayName", Js.or (user_displayName user) (user_name user));
      ("firstName", user_firstName user);
      ("lastName", user_lastName user);
      ("bio", user_bio user);
      ("email", user_email user);
      ("college", user_college user);
      ("department", user_department user);
      ("tenantId", opt_str (user_tenantId user));
      ("interests", Js.or (user_interests user) (JArr []));
      ("skills", Js.or (user_skills user) (JArr []));
      ("followers", Js.or (Js.or (length_opt (user_followers user)) (user_followerCount user)) (num 0));
      ("following", Js.or (Js.or (length_opt (user_following user)) (user_followingCount user)) (num 0));
      ("posts", Js.or (user_postCount user) (num 0));
      ("verified", Js.or (user_verified user) (JBool false));
      ("createdAt", user_createdAt user);
      ("lastActive", Js.or (user_lastActive user) (user_updatedAt user));
      ("embedding", Js.or (user_embedding user) JNull)].

(** The operations of the worker's [bulkIndex]:
    [{ index: { _index: index, _id: doc._id } }, doc] per document. *)
Definition bulk_operations (index : string) (documents : list obj) : list obj :=
  flat_map (fun doc => [[("index", JObj [("_index", JStr index); ("_id", get doc "_id")])]; doc])
           documents.

(** [bulkIndex(index, documents)] of the worker: partial failures and
    engine errors are logged only. *)
Definition bulkIndex (index : string) (documents : list obj) : M unit :=
  match documents with
  | [] => ret tt
  | _ =>
      catch
        (r <- client_bulk es (bulk_operations index documents) false ;;
         if bulk_errors r then log "[IndexSync] Bulk errors:" else ret tt)
        (fun _ => log "[IndexSync] Bulk index error:")
  end.

(** MongoDB's [find({ _id: { $gt: lastId } }).sort({ _id: 1 }).limit(n)]
    over a collection; ObjectIds compare as their (fixed-length, lower case)
    hex texts do. *)
Fixpoint insert_by {A} (key : A -> string) (x : A) (l : list A) : list A :=
  match l with
  | [] => [x]
  | y :: r => if String.leb (key x) (key y) then x :: y :: r else y :: insert_by key x r
  end.

Definition sort_by {A} (key : A -> string) (l : list A) : list A :=
  fold_right (insert_by key) [] l.

Definition find_batch {A} (key : A -> string) (coll : list A) (lastId : option string)
    (limit : nat) : list A :=
  firstn limit (sort_by key (filter (fun x => match lastId with
                                              | None => true
                                              | Some l => String.ltb l (key x)
                                              end) coll)).

(** The [while (true)] cursor loop of [syncPosts] and [syncUsers].  Each
    non-empty batch moves [lastId] strictly up, so [S (length coll)] rounds
    always reach the empty batch that ends the loop. *)
Fixpoint sync_loop {A} (key : A -> string) (transform : A -> result obj) (index : string)
    (coll : list A) (fuel : nat) (lastId : option string) (totalSynced : nat) : M nat :=
  match fuel with
  | O => ret totalSynced
  | S fuel' =>
      match find_batch key coll lastId batchSize with
      | [] => ret totalSynced
      | x :: r =>
          let batch := x :: r in
          documents <- mapM (fun y => lift (transform y)) batch ;;
          bulkIndex index documents ;;;
          sync_loop key transform index coll fuel'
                    (Some (key (last batch x))) (totalSynced + List.length batch)
      end
  end.

(** [syncPosts()] over the (populated) posts collection. *)
Definition syncPosts (posts : list Post) : M unit :=
  catch (sync_loop post_id transformPost POSTS posts (S (List.length posts)) None 0 ;;; ret tt)
        (fun _ => log "[IndexSync] Posts sync error:").

(** [syncUsers()] over the users collection. *)
Definition syncUsers (users : list User) : M unit :=
  catch (sync_loop user_id transformUser USERS users (S (List.length users)) None 0 ;;; ret tt)
        (fun _ => log "[IndexSync] Users sync error:").

(** The aggregation pipeline of [syncHashtags]:
    [$unwind: '$hashtags'], then [$group] by tag with [count: $sum 1] and
    [lastUsed: $max '$createdAt'], then [$sort: { count: -1 }]. *)
Definition unwind_hashtags (posts : list Post) : list (string * R) :=
  flat_map (fun p => map (fun t => (t, post_createdAt p)) (post_hashtags p)) posts.

Record HashtagGroup := mkHashtagGroup {
  group_id : string;       (** [h._id], the hashtag value *)
  group_count : nat;
  group_lastUsed : R
}.

Fixpoint add_to_group (t : string) (at_ : R) (gs : list HashtagGroup) : list HashtagGroup :=
  match gs with
  | [] => [mkHashtagGroup t 1 at_]
  | g :: r =>
      if String.eqb t (group_id g)
      then mkHashtagGroup (group_id g) (S (group_count g)) (Rmax (group_lastUsed g) at_) :: r
      else g :: add_to_group t at_ r
  end.

Definition group_hashtags (l : list (string * R)) : list HashtagGroup :=
  fold_left (fun gs x => add_to_group (fst x) (snd x) gs) l [].

Fixpoint insert_by_count_desc (g : HashtagGroup) (l : list HashtagGroup) : list HashtagGroup :=
  match l with
  | [] => [g]
  | h :: r =>
      if Nat.ltb (group_count h) (group_count g) then g :: h :: r
      else h :: insert_by_count_desc g r
  end.

Definition aggregate_hashtags (posts : list Post) : list HashtagGroup :=
  fold_right insert_by_count_desc [] (group_hashtags (unwind_hashtags posts)).

(** The document built for one aggregated hashtag. *)
Definition hashtag_document (h : HashtagGroup) : obj :=
  [("_id", JStr (group_id h));
   ("tag", JStr (replace_first_hash (group_id h)));
   ("count", num (group_count h));
   ("lastUsed", JNum (group_lastUsed h));
   ("trendScore", JNum (calculateTrendScore now (INR (group_count h)) (group_lastUsed h)))].

(** [syncHashtags()] *)
Definition syncHashtags (posts : list Post) : M unit :=
  catch (bulkIndex HASHTAGS (map hashtag_document (aggregate_hashtags posts)))
        (fun _ => log "[IndexSync] Hashtags sync error:").

(** [indexPost(post)] *)
Definition indexPost (post : Post) : M unit :=
  catch (document <- lift (transformPost post) ;;
         client_index es POSTS (match get document "_id" with JStr i => Some i | _ => None end)
                      document true)
        (fun _ => log "[IndexSync] Index post error:").

(** [indexUser(user)] *)
Definition indexUser (user : User) : M unit :=
  catch (document <- lift (transformUser user) ;;
         client_index es USERS (match get document "_id" with JStr i => Some i | _ => None end)
                      document true)
        (fun _ => log "[IndexSync] Index user error:").

(** [deleteDocument(index, id)] of the worker: a 404 answer is not logged. *)
Definition deleteDocument (index id : string) : M unit :=
  catch (client_delete es index id ;;; ret tt)
        (fun e => match e with
                  | ResponseError 404 => ret tt
                  | _ => log "[IndexSync] Delete error:"
                  end).

End Worker.

(** An event a sync pass may add to [index]: a log line, or a bulk request
    whose operations are [bulk_operations index docs] for documents
    satisfying [source_doc]. *)
Definition sync_event (index : string) (source_doc : obj -> Prop) (e : event) : Prop :=
  match e with
  | Log _ => True
  | Req (ReqBulk ops _) => exists docs, ops = bulk_operations index docs /\ Forall source_doc docs
  | Req _ => False
  end.

(** The operations of the bulk requests of a trace, in order. *)
Fixpoint bulk_requests (ev : list event) : list (list obj) :=
  match ev with
  | [] => []
  | Req (ReqBulk ops _) :: r => ops :: bulk_requests r
  | _ :: r => bulk_requests r
  end.

(** [INDICES], in declaration order: its keys and index names. *)
Definition INDICES : list (string * string) :=
  [("POSTS", POSTS); ("USERS", USERS); ("COMMENTS", COMMENTS);
   ("HASHTAGS", HASHTAGS); ("SEARCH_HISTORY", SEARCH_HISTORY)].

(** The loop of [getStatus()] over [Object.entries(INDICES)]: [count index]
    is the answer to [client.count({ index })]. *)
Fixpoint count_indices (count : string -> result nat) (entries : list (string * string))
    (stats : obj) : M obj :=
  match entries with
  | [] => ret stats
  | (key, index) :: r =>
      c <- catch (n <- lift (count index) ;; ret (JObj [("indexed", num n)]))
                 (fun _ => ret (JObj [("indexed", num 0)])) ;;
      count_indices count r (set stats key c)
  end.

(** [getStatus()]; the errors of the model carry no message, so the
    [error.message] of the outer handler reads as [undefined]. *)
Definition getStatus (isRunning : bool) (count : string -> result nat) : M obj :=
  catch
    (stats <- count_indices count INDICES [] ;;
     ret [("isRunning", JBool isRunning); ("indices", JObj stats)])
    (fun _ => log "[IndexSync] Status error:" ;;;
              ret [("isRunning", JBool isRunning); ("error", JUndef)]).

(** The fields of the worker and the timers of the runtime: the active
    [setInterval] timers by id and period, the next timer id, and the
    number of [syncAll()] calls made by [start]. *)
Record WorkerState := mkWorkerState {
  isRunning : bool;
  syncInterval : option nat;
  active_intervals : list (nat * nat);
  next_timer : nat;
  syncAll_calls : nat
}.

(** [new IndexSyncWorker()]: [isRunning = false], [syncInterval = null]. *)
Definition initial_state : WorkerState := mkWorkerState false None [] 0 0.

(** [clearInterval(t)] *)
Definition clearInterval (t : nat) (timers : list (nat * nat)) : list (nat * nat) :=
  filter (fun x => negb (Nat.eqb (fst x) t)) timers.

(** [start(intervalMs)]: the initial [syncAll()] is not awaited. *)
Definition start (intervalMs : nat) (st : WorkerState) : WorkerState :=
  if isRunning st then st else
  mkWorkerState true (Some (next_timer st)) ((next_timer st, intervalMs) :: active_intervals st)
                (S (next_timer st)) (S (syncAll_calls st)).

(** [stop()] *)
Definition stop (st : WorkerState) : WorkerState :=
  match syncInterval st with
  | Some t => mkWorkerState false None (clearInterval t (active_intervals st))
                            (next_timer st) (syncAll_calls st)
  | None => mkWorkerState false None (active_intervals st) (next_timer st) (syncAll_calls st)
  end.

Inductive command := Start (intervalMs : nat) | Stop.

Definition run_command (st : WorkerState) (c : command) : WorkerState :=
  match c with
  | Start ms => start ms st
  | Stop => stop st
  end.

Definition run_commands (cs : list command) (st : WorkerState) : WorkerState :=
  fold_left run_command cs st.

End IndexSyncWorker.

(** ** Concrete inputs *)

Module Fixtures.

(** A post with cached counters likes=10, comments=2, shares=1, views=100,
    created at instant 0. *)
Definition sample_post : Post :=
  mkPost "65a000000000000000000001" None JUndef (JStr "Intro #Rocq") JUndef JUndef JUndef
    JUndef JUndef None None (Some 10) None (Some 2) (Some 1) (Some 100) 0%R JUndef None
    JUndef ["#rocq"].

(** A post with the given id, creation time and hashtags. *)
Definition tagged_post (id : string) (at_ : R) (tags : list string) : Post :=
  mkPost id None JUndef JUndef JUndef JUndef JUndef JUndef JUndef None None None None None
    None None at_ JUndef None JUndef tags.

(** A user with the given id and no other field set. *)
Definition plain_user (id : string) : IndexSyncWorker.User :=
  IndexSyncWorker.mkUser id JUndef JUndef JUndef JUndef JUndef JUndef JUndef JUndef JUndef None JUndef JUndef
    JUndef JUndef JUndef JUndef JUndef JUndef JUndef JUndef JUndef JUndef.

(** A post whose caption is a boolean rather than a string. *)
Definition boolean_caption_post (id : string) : Post :=
  mkPost id None JUndef (JBool true) JUndef JUndef JUndef JUndef JUndef None None None None None
    None None 0 JUndef None JUndef [].

Definition no_search : list string -> obj -> result search_response :=
  fun _ _ => Throw ConnectionError.

(** An engine that cannot be reached. *)
Definition engine_down : engine :=
  mkEngine no_search (fun _ _ => Throw ConnectionError) (fun _ _ _ => Throw ConnectionError)
    (fun _ _ _ => Throw ConnectionError) (fun _ _ => Throw ConnectionError)
    (fun _ => Throw ConnectionError).

(** An engine holding the ids [stored] of each index: [delete] of any other
    id is answered with 404. *)
Definition store_engine (stored : list (string * string)) : engine :=
  mkEngine no_search
    (fun _ _ => Throw (ResponseError 404))
    (fun _ _ _ => Ok tt)
    (fun _ _ _ => Ok tt)
    (fun index id =>
       if existsb (fun p => String.eqb (fst p) index && String.eqb (snd p) id) stored
       then Ok tt else Throw (ResponseError 404))
    (fun _ => Ok (mkBulkResponse false [])).

Definition one_hit (id : string) (source : obj) : search_response :=
  mkSearchResponse [mkHit id POSTS 1%R source JUndef] 1 1 None.

(** Every search matches one post document [p1] with a caption and a tag. *)
Definition chatty_engine : engine :=
  mkEngine (fun _ _ => Ok (one_hit "p1" [("caption", JStr "Rocq tips"); ("tag", JStr "rocq")]))
    (fun _ _ => Throw (ResponseError 404)) (fun _ _ _ => Ok tt) (fun _ _ _ => Ok tt)
    (fun _ _ => Ok tt) (fun _ => Ok (mkBulkResponse false [])).

(** Post [a] has an embedding; its only neighbour [b] was stored with its
    own [id] field, which reads ["a"]. *)
Definition similar_engine : engine :=
  mkEngine (fun _ _ => Ok (one_hit "b" [("id", JStr "a")]))
    (fun _ _ => Ok (mkGetResponse [("embedding", JArr [JNum 1%R])]))
    (fun _ _ _ => Ok tt) (fun _ _ _ => Ok tt) (fun _ _ => Ok tt)
    (fun _ => Ok (mkBulkResponse false [])).


Definition rejected_item : obj :=
  [("index", JObj [("_id", JStr "d1"); ("error", JStr "mapper_parsing_exception")])].

Definition partial_bulk_response : bulk_response :=
  mkBulkResponse true [rejected_item; [("index", JObj [("_id", JStr "d2"); ("result", JStr "created")])]].

(** Bulk calls succeed; the engine rejects the first of two documents. *)
Definition partial_bulk_engine : engine :=
  mkEngine no_search (fun _ _ => Throw (ResponseError 404)) (fun _ _ _ => Ok tt)
    (fun _ _ _ => Ok tt) (fun _ _ => Ok tt) (fun _ => Ok partial_bulk_response).

Definition two_documents : list obj :=
  [[("_id", JStr "d1"); ("caption", JNull)]; [("_id", JStr "d2"); ("caption", JStr "ok")]].

End Fixtures.

(** * Properties *)

(** ** Score functions *)

Lemma INR_or_count_views (v : option nat) :
  INR (or_count v 1) = Rmax (INR (match v with Some n => n | None => 0 end)) 1.
Proof.
  destruct v as [[|n]|]; cbn [or_count].
  - rewrite Rmax_right; simpl; lra.
  - rewrite Rmax_left; [reflexivity|].
    rewrite S_INR. pose proof (pos_INR n). lra.
  - rewrite Rmax_right; simpl; lra.
Qed.

Lemma ageInHours_self (now : R) : ageInHours now now = 0%R.
Proof. unfold ageInHours. unfold Rdiv. rewrite Rminus_diag. ring. Qed.

(** C3. The engagement score of a post is
    [((likes*1 + comments*3 + shares*5) / max(views, 1)) * 0.95^(ageHours/24) * 100]
    with the counters read as the code reads them, and it is non-negative.
    For likes=10, comments=2, shares=1, views=100 at age 0 it is 21, and the
    popularity score of those counters is 10*1 + 2*2 + 1*3 = 17. *)
Theorem engagement_score_formula :
  (forall (now : R) (post : Post),
     let likes := INR (post_like_count post) in
     let comments := INR (post_comment_count post) in
     let shares := INR (post_share_count post) in
     let views := INR (match post_views post with Some n => n | None => 0 end) in
     calculateEngagementScore now post =
       ((likes * 1 + comments * 3 + shares * 5) / Rmax views 1
        * Rpower 0.95 (ageInHours now (post_createdAt post) / 24) * 100)%R
     /\ (0 <= calculateEngagementScore now post)%R)
  /\ (forall (now : R) (p : Post),
        post_likes p = None -> post_likeCount p = Some 10 ->
        post_comments p = None -> post_commentCount p = Some 2 ->
        post_shares p = Some 1 -> post_views p = Some 100 ->
        post_createdAt p = now ->
        calculateEngagementScore now p = 21%R /\ calculatePopularityScore p = 17).
Proof.
  split.
  - intros now post likes comments shares views.
    assert (Hv : INR (or_count (post_views post) 1) = Rmax views 1)
      by (unfold views; apply INR_or_count_views).
    unfold calculateEngagementScore. fold likes comments shares. rewrite Hv.
    split; [reflexivity|].
    assert (0 < Rmax views 1)%R by (pose proof (Rmax_r views 1); lra).
    assert (0 < Rpower 0.95 (ageInHours now (post_createdAt post) / 24))%R
      by (unfold Rpower; apply exp_pos).
    assert (0 <= likes)%R by apply pos_INR.
    assert (0 <= comments)%R by apply pos_INR.
    assert (0 <= shares)%R by apply pos_INR.
    apply Rmult_le_pos; [|lra].
    apply Rmult_le_pos; [|lra].
    unfold Rdiv. apply Rmult_le_pos; [lra|].
    left. apply Rinv_0_lt_compat. assumption.
  - intros now p H1 H2 H3 H4 H5 H6 H7.
    unfold calculateEngagementScore, calculatePopularityScore, post_like_count,
      post_comment_count, post_share_count.
    rewrite H1, H2, H3, H4, H5, H6, H7. simpl option_map. cbn [or_count].
    split; [|reflexivity].
    rewrite ageInHours_self. unfold Rpower.
    replace (0 / 24 * ln 0.95)%R with 0%R by (unfold Rdiv; ring).
    rewrite exp_0. simpl. field.
Qed.

(** C4. For a fixed non-negative count the trend score
    [count * (1 + max(0, 1 - ageHours/168))] does not increase as the age
    grows; from 168 hours on it is exactly [count]; count=20 at 84 hours
    gives 30. *)
Theorem trend_score_decay :
  (forall now count lastUsed1 lastUsed2 : R,
     (0 <= count)%R ->
     (ageInHours now lastUsed1 <= ageInHours now lastUsed2)%R ->
     (calculateTrendScore now count lastUsed2 <= calculateTrendScore now count lastUsed1)%R)
  /\ (forall now count lastUsed : R,
        (168 <= ageInHours now lastUsed)%R ->
        calculateTrendScore now count lastUsed = count)
  /\ (forall now lastUsed : R,
        ageInHours now lastUsed = 84%R ->
        calculateTrendScore now 20 lastUsed = 30%R).
Proof.
  unfold calculateTrendScore.
  split; [|split].
  - intros now count l1 l2 Hc Ha.
    set (a1 := ageInHours now l1) in *. set (a2 := ageInHours now l2) in *.
    apply Rmult_le_compat_l; [assumption|].
    apply Rplus_le_compat_l.
    apply Rmax_lub; [apply Rmax_l|].
    eapply Rle_trans; [|apply Rmax_r]. unfold Rdiv. lra.
  - intros now count l Ha.
    rewrite Rmax_left; [ring|]. unfold Rdiv. lra.
  - intros now l Ha. rewrite Ha.
    rewrite Rmax_right; [field|]. unfold Rdiv. lra.
Qed.

(** ** Write passthroughs of SearchService *)

Section WriteLemmas.
Import SearchService.

Lemma filterM_item_has_error (items : list obj) (tr : list event) :
  (forall i, In i items -> get i "index" <> JUndef /\ get i "index" <> JNull) ->
  filterM item_has_error items tr =
    (Ok (filter (fun i => truthy (get_opt (get i "index") "error")) items), tr).
Proof.
  induction items as [|i r IH]; intros Hwf; [reflexivity|].
  cbn [filterM]. unfold bind at 1.
  assert (Hi : item_has_error i tr = (Ok (truthy (get_opt (get i "index") "error")), tr)).
  { destruct (Hwf i (or_introl eq_refl)) as [H1 H2].
    unfold item_has_error. destruct (get i "index"); try congruence; reflexivity. }
  rewrite Hi. unfold bind.
  rewrite IH by (intros j Hj; apply Hwf; right; exact Hj).
  cbn [filter]. destruct (truthy _); reflexivity.
Qed.

Lemma bulkIndex_success es index documents tr r :
  es_bulk es (bulk_operations index documents) = Ok r ->
  (bulk_errors r = true ->
   forall i, In i (bulk_items r) -> get i "index" <> JUndef /\ get i "index" <> JNull) ->
  fst (bulkIndex es index documents tr) =
    Ok [("success", JBool (negb (bulk_errors r)));
        ("indexed", num (List.length documents));
        ("errors", JArr (map JObj
           (if bulk_errors r
            then filter (fun i => truthy (get_opt (get i "index") "error")) (bulk_items r)
            else [])))].
Proof.
  intros H Hwf.
  unfold bulkIndex, catch, bind at 1, client_bulk, send. rewrite H.
  destruct (bulk_errors r) eqn:He.
  + unfold bind. rewrite filterM_item_has_error by (apply Hwf; reflexivity). reflexivity.
  + reflexivity.
Qed.

End WriteLemmas.

(** C9. Engine-level failures of the single-document writes become the
    boolean [false]; the same failure of the bulk call is re-thrown by
    [bulkIndex]; a successful bulk call yields
    [{ success, indexed, errors }] with [errors] the items the engine
    marked as failed. *)
Theorem write_failure_asymmetry :
  (forall es index id document tr err,
     es_index es index (Some id) document = Throw err ->
     fst (SearchService.indexDocument es index id document tr) = Ok false)
  /\ (forall es index id updates tr err,
        es_update es index id [("doc", JObj updates)] = Throw err ->
        fst (SearchService.updateDocument es index id updates tr) = Ok false)
  /\ (forall es index id tr err,
        es_delete es index id = Throw err ->
        fst (SearchService.deleteDocument es index id tr) = Ok false)
  /\ (forall es index documents tr err,
        es_bulk es (SearchService.bulk_operations index documents) = Throw err ->
        fst (SearchService.bulkIndex es index documents tr) = Throw err)
  /\ (forall es index documents tr r,
        es_bulk es (SearchService.bulk_operations index documents) = Ok r ->
        (bulk_errors r = true ->
         forall i, In i (bulk_items r) -> get i "index" <> JUndef /\ get i "index" <> JNull) ->
        fst (SearchService.bulkIndex es index documents tr) =
          Ok [("success", JBool (negb (bulk_errors r)));
              ("indexed", num (List.length documents));
              ("errors", JArr (map JObj
                 (if bulk_errors r
                  then filter (fun i => truthy (get_opt (get i "index") "error")) (bulk_items r)
                  else [])))]).
Proof.
  split; [|split; [|split; [|split]]].
  - intros es index id document tr err H.
    unfold SearchService.indexDocument, catch, bind, client_index, send. rewrite H. reflexivity.
  - intros es index id updates tr err H.
    unfold SearchService.updateDocument, catch, bind, client_update, send. rewrite H. reflexivity.
  - intros es index id tr err H.
    unfold SearchService.deleteDocument, catch, bind, client_delete, send. rewrite H. reflexivity.
  - intros es index documents tr err H.
    unfold SearchService.bulkIndex, catch, bind at 1, client_bulk, send. rewrite H. reflexivity.
  - intros es index documents tr r H Hwf. apply bulkIndex_success; assumption.
Qed.

(** C10. Whenever the bulk call itself succeeds, [indexed] is the number of
    submitted documents, also when the engine rejected some of them. *)
Theorem bulk_indexed_counts_submitted :
  forall es index documents tr r,
    es_bulk es (SearchService.bulk_operations index documents) = Ok r ->
    (bulk_errors r = true ->
     forall i, In i (bulk_items r) -> get i "index" <> JUndef /\ get i "index" <> JNull) ->
    exists o, fst (SearchService.bulkIndex es index documents tr) = Ok o
              /\ get o "indexed" = num (List.length documents)
              /\ get o "success" = JBool (negb (bulk_errors r)).
Proof.
  intros es index documents tr r H Hwf.
  eexists. split; [exact (bulkIndex_success es index documents tr r H Hwf)|].
  split; reflexivity.
Qed.

(** ** Witnesses of the hypotheses *)

Lemma engagement_score_formula_witness :
  calculateEngagementScore 0 Fixtures.sample_post = 21%R
  /\ calculatePopularityScore Fixtures.sample_post = 17.
Proof.
  apply (proj2 engagement_score_formula 0%R Fixtures.sample_post); reflexivity.
Defined.

Lemma trend_score_decay_witness :
  (calculateTrendScore 0 5 (- (200 * 3600000)) <= calculateTrendScore 0 5 (- (100 * 3600000)))%R
  /\ calculateTrendScore 0 7 (- (200 * 3600000)) = 7%R
  /\ calculateTrendScore 0 20 (- (84 * 3600000)) = 30%R.
Proof.
  destruct trend_score_decay as (Hmono & Hflat & Hex).
  split; [|split].
  - apply Hmono; [lra|]. unfold ageInHours. unfold Rdiv. lra.
  - apply Hflat. unfold ageInHours. unfold Rdiv. lra.
  - apply Hex. unfold ageInHours. field.
Defined.

Lemma write_failure_asymmetry_witness :
  fst (SearchService.indexDocument Fixtures.engine_down POSTS "p1" [] []) = Ok false
  /\ fst (SearchService.updateDocument Fixtures.engine_down POSTS "p1" [] []) = Ok false
  /\ fst (SearchService.deleteDocument Fixtures.engine_down POSTS "p1" []) = Ok false
  /\ fst (SearchService.bulkIndex Fixtures.engine_down POSTS Fixtures.two_documents []) =
       Throw ConnectionError
  /\ fst (SearchService.bulkIndex Fixtures.partial_bulk_engine POSTS Fixtures.two_documents []) =
       Ok [("success", JBool false); ("indexed", num 2);
           ("errors", JArr [JObj Fixtures.rejected_item])].
Proof.
  destruct write_failure_asymmetry as (Hi & Hu & Hd & Hb & Hs).
  split; [|split; [|split; [|split]]].
  - apply (Hi _ _ _ _ _ ConnectionError); reflexivity.
  - apply (Hu _ _ _ _ _ ConnectionError); reflexivity.
  - apply (Hd _ _ _ _ ConnectionError); reflexivity.
  - apply Hb; reflexivity.
  - rewrite (Hs _ _ _ _ Fixtures.partial_bulk_response); [reflexivity|reflexivity|].
    intros _ i Hin. simpl in Hin.
    destruct Hin as [<-|[<-|[]]]; simpl; split; discriminate.
Defined.

Lemma bulk_indexed_counts_submitted_witness :
  exists o, fst (SearchService.bulkIndex Fixtures.partial_bulk_engine POSTS Fixtures.two_documents []) = Ok o
            /\ get o "indexed" = num 2 /\ get o "success" = JBool false.
Proof.
  apply (bulk_indexed_counts_submitted Fixtures.partial_bulk_engine POSTS Fixtures.two_documents []
           Fixtures.partial_bulk_response).
  - reflexivity.
  - intros _ i Hin. simpl in Hin.
    destruct Hin as [<-|[<-|[]]]; simpl; split; discriminate.
Defined.

(** ** Deleting a document the engine does not hold *)

(** C8 (as amended).  When the engine answers a delete with 404, neither
    [deleteDocument] throws.  The worker's absorbs the 404 completely: same
    result and same trace as the delete of a stored id (the 404 is not even
    logged).  [SearchService.deleteDocument] resolves [false] and logs there,
    while the delete of a stored id resolves [true]. *)
Theorem delete_not_found_outcome :
  forall es index id tr,
    (es_delete es index id = Throw (ResponseError 404) ->
       IndexSyncWorker.deleteDocument es index id tr = (Ok tt, tr ++ [Req (ReqDelete index id)])
       /\ SearchService.deleteDocument es index id tr =
            (Ok false, (tr ++ [Req (ReqDelete index id)]) ++ [Log "[SearchService] Delete error:"]))
    /\ (es_delete es index id = Ok tt ->
          IndexSyncWorker.deleteDocument es index id tr = (Ok tt, tr ++ [Req (ReqDelete index id)])
          /\ SearchService.deleteDocument es index id tr = (Ok true, tr ++ [Req (ReqDelete index id)])).
Proof.
  intros es index id tr.
  unfold IndexSyncWorker.deleteDocument, SearchService.deleteDocument, catch, bind,
    client_delete, send.
  split; intros H; rewrite H; split; reflexivity.
Qed.

Lemma delete_not_found_outcome_witness :
  IndexSyncWorker.deleteDocument (Fixtures.store_engine [(POSTS, "p1")]) POSTS "p2" [] =
    (Ok tt, [Req (ReqDelete POSTS "p2")])
  /\ SearchService.deleteDocument (Fixtures.store_engine [(POSTS, "p1")]) POSTS "p2" [] =
    (Ok false, [Req (ReqDelete POSTS "p2"); Log "[SearchService] Delete error:"]).
Proof.
  apply (proj1 (delete_not_found_outcome (Fixtures.store_engine [(POSTS, "p1")]) POSTS "p2" [])).
  reflexivity.
Defined.

(** C8 fails as stated: on an id the engine does not hold,
    [SearchService.deleteDocument] resolves [false], on a stored id [true]. *)
Lemma delete_not_found_counterexample :
  fst (SearchService.deleteDocument (Fixtures.store_engine [(POSTS, "p1")]) POSTS "p2" []) = Ok false
  /\ fst (SearchService.deleteDocument (Fixtures.store_engine [(POSTS, "p1")]) POSTS "p1" []) = Ok true.
Proof. split; reflexivity. Qed.

(** ** Error handling on the read paths *)

Section ReadLemmas.
Import SearchService.

Lemma catch_total {A} (m : M A) (h : error -> M A) (tr : list event) :
  (forall e tr', exists v, fst (h e tr') = Ok v) ->
  exists v, fst (catch m h tr) = Ok v.
Proof.
  intros Hh. unfold catch. destruct (m tr) as [[a|e] tr'].
  - exists a. reflexivity.
  - apply Hh.
Qed.



Lemma autocomplete_total es numberToString prefix o tr :
  exists v, fst (autocomplete es numberToString prefix o tr) = Ok v.
Proof. apply catch_total. intros e tr'. eexists. reflexivity. Qed.


Lemma findSimilar_total es id type size tr :
  exists v, fst (findSimilar es id type size tr) = Ok v.
Proof. apply catch_total. intros e tr'. eexists. reflexivity. Qed.

End ReadLemmas.




(** ** Reasoning about [M] programs *)

Section MonadLemmas.
Context {A B : Type}.

Lemma yields_ret (Q : A -> Prop) (a : A) : Q a -> yields Q (ret a).
Proof. intros H tr. exact H. Qed.

Lemma yields_throw (Q : A -> Prop) (e : error) : yields Q (throw e).
Proof. intros tr. exact I. Qed.

Lemma yields_bind (Q : B -> Prop) (m : M A) (k : A -> M B) :
  (forall a, yields Q (k a)) -> yields Q (bind m k).
Proof.
  intros Hk tr. unfold bind. destruct (m tr) as [[a|e] tr']; [apply Hk|exact I].
Qed.

Lemma yields_catch (Q : A -> Prop) (m : M A) (h : error -> M A) :
  yields Q m -> (forall e, yields Q (h e)) -> yields Q (catch m h).
Proof.
  intros Hm Hh tr. unfold catch. specialize (Hm tr).
  destruct (m tr) as [[a|e] tr']; [exact Hm|apply Hh].
Qed.

Lemma catch_of_failing (m : M A) (h : error -> M A) (d : A) (tr : list event) :
  yields (fun _ => False) m ->
  (forall e tr', fst (h e tr') = Ok d) ->
  fst (catch m h tr) = Ok d.
Proof.
  intros Hm Hh. unfold catch. specialize (Hm tr).
  destruct (m tr) as [[a|e] tr']; [contradiction|apply Hh].
Qed.

Lemma yields_total (Q : A -> Prop) (m : M A) (tr : list event) :
  yields Q m -> (exists v, fst (m tr) = Ok v) -> exists v, fst (m tr) = Ok v /\ Q v.
Proof.
  intros HQ [v Hv]. exists v. split; [exact Hv|]. specialize (HQ tr). rewrite Hv in HQ. exact HQ.
Qed.

Lemma appends_ret (a : A) : appends (ret a).
Proof. intros tr. exists []. rewrite app_nil_r. reflexivity. Qed.

Lemma appends_throw (e : error) : appends (A := A) (throw e).
Proof. intros tr. exists []. rewrite app_nil_r. reflexivity. Qed.

Lemma appends_lift (r : result A) : appends (lift r).
Proof. intros tr. exists []. rewrite app_nil_r. reflexivity. Qed.

Lemma appends_send (r : request) (answer : result A) : appends (send r answer).
Proof. intros tr. exists [Req r]. reflexivity. Qed.

Lemma appends_log (msg : string) : appends (log msg).
Proof. intros tr. exists [Log msg]. reflexivity. Qed.

Lemma appends_bind (m : M A) (k : A -> M B) :
  appends m -> (forall a, appends (k a)) -> appends (bind m k).
Proof.
  intros Hm Hk tr. unfold bind. destruct (Hm tr) as [ev1 H1].
  destruct (m tr) as [[a|e] tr'] eqn:E; simpl in H1; subst tr'.
  - destruct (Hk a (tr ++ ev1)) as [ev2 H2]. exists (ev1 ++ ev2).
    rewrite H2, app_assoc. reflexivity.
  - exists ev1. reflexivity.
Qed.

Lemma appends_catch (m : M A) (h : error -> M A) :
  appends m -> (forall e, appends (h e)) -> appends (catch m h).
Proof.
  intros Hm Hh tr. unfold catch. destruct (Hm tr) as [ev1 H1].
  destruct (m tr) as [[a|e] tr'] eqn:E; simpl in H1; subst tr'.
  - exists ev1. reflexivity.
  - destruct (Hh e (tr ++ ev1)) as [ev2 H2]. exists (ev1 ++ ev2).
    rewrite H2, app_assoc. reflexivity.
Qed.

End MonadLemmas.

Lemma appends_mapM {A B} (f : A -> M B) (l : list A) :
  (forall x, appends (f x)) -> appends (mapM f l).
Proof.
  intros Hf. induction l as [|x r IH]; simpl.
  - apply appends_ret.
  - apply appends_bind; [apply Hf|]. intros y.
    apply appends_bind; [exact IH|]. intros ys. apply appends_ret.
Qed.

Lemma yields_bind_fail {A B} (m : M A) (k : A -> M B) :
  yields (fun _ => False) m -> yields (fun _ => False) (bind m k).
Proof.
  intros Hm tr. unfold bind. specialize (Hm tr).
  destruct (m tr) as [[a|e] tr']; [contradiction|exact I].
Qed.

Lemma yields_lift_throw {A} (e : error) : yields (fun _ : A => False) (lift (Throw e)).
Proof. intros tr. exact I. Qed.

(** The events a program starts with. *)
Lemma starts_with_send {A} (r : request) (answer : result A) tr :
  snd (send r answer tr) = tr ++ [Req r] ++ [].
Proof. reflexivity. Qed.

Lemma starts_with_bind {A B} (m : M A) (k : A -> M B) (ev0 : list event) :
  (forall tr, exists ev, snd (m tr) = tr ++ ev0 ++ ev) ->
  (forall a, appends (k a)) ->
  forall tr, exists ev, snd (bind m k tr) = tr ++ ev0 ++ ev.
Proof.
  intros Hm Hk tr. unfold bind. destruct (Hm tr) as [ev1 H1].
  destruct (m tr) as [[a|e] tr'] eqn:E; simpl in H1; subst tr'.
  - destruct (Hk a (tr ++ ev0 ++ ev1)) as [ev2 H2]. exists (ev1 ++ ev2).
    rewrite H2, <- !app_assoc. reflexivity.
  - exists ev1. reflexivity.
Qed.

Lemma starts_with_catch {A} (m : M A) (h : error -> M A) (ev0 : list event) :
  (forall tr, exists ev, snd (m tr) = tr ++ ev0 ++ ev) ->
  (forall e, appends (h e)) ->
  forall tr, exists ev, snd (catch m h tr) = tr ++ ev0 ++ ev.
Proof.
  intros Hm Hh tr. unfold catch. destruct (Hm tr) as [ev1 H1].
  destruct (m tr) as [[a|e] tr'] eqn:E; simpl in H1; subst tr'.
  - exists ev1. reflexivity.
  - destruct (Hh e (tr ++ ev0 ++ ev1)) as [ev2 H2]. exists (ev1 ++ ev2).
    rewrite H2, <- !app_assoc. reflexivity.
Qed.

Ltac appends_tac :=
  repeat (intros;
    match goal with
    | |- appends (bind _ _) => apply appends_bind
    | |- appends (catch _ _) => apply appends_catch
    | |- appends (ret _) => apply appends_ret
    | |- appends (throw _) => apply appends_throw
    | |- appends (lift _) => apply appends_lift
    | |- appends (log _) => apply appends_log
    | |- appends (send _ _) => apply appends_send
    | |- appends (mapM _ _) => apply appends_mapM
    | |- appends (if ?b then _ else _) => destruct b
    | |- appends (match ?x with _ => _ end) => destruct x
    | |- appends (client_search _ _ _) => unfold client_search
    | |- appends (client_get _ _ _) => unfold client_get
    | |- appends (client_index _ _ _ _ _) => unfold client_index
    | |- appends (client_update _ _ _ _) => unfold client_update
    | |- appends (client_delete _ _ _) => unfold client_delete
    | |- appends (client_bulk _ _ _) => unfold client_bulk
    | |- appends (SearchService.post_suggestion _) => unfold SearchService.post_suggestion
    end).

Lemma bind_ok {A B} (m : M A) (k : A -> M B) tr a tr' :
  m tr = (Ok a, tr') -> bind m k tr = k a tr'.
Proof. intros H. unfold bind. rewrite H. reflexivity. Qed.

Lemma post_suggestion_trace h tr :
  SearchService.post_suggestion h tr = (fst (SearchService.post_suggestion h []), tr).
Proof.
  unfold SearchService.post_suggestion, bind, lift, ret.
  destruct (SearchService.caption_text _); reflexivity.
Qed.

Lemma mapM_post_suggestion_ok hits ps tr :
  Forall2 (fun h p => SearchService.post_suggestion h [] = (Ok p, [])) hits ps ->
  mapM SearchService.post_suggestion hits tr = (Ok ps, tr).
Proof.
  induction 1 as [|h p hits ps Hh _ IH]; [reflexivity|]. simpl.
  rewrite (bind_ok _ _ tr p tr); [|rewrite post_suggestion_trace, Hh; reflexivity].
  rewrite (bind_ok _ _ tr ps tr IH). reflexivity.
Qed.

(** ** Autocomplete *)

(** C2 (as amended).  [autocomplete] has no short-circuit for an empty or
    missing prefix: for type 'all' its first event is the posts query carrying
    the prefix as given.  It never throws and returns at most [size]
    suggestions; a prefix that is not a string (such as [null]) makes the
    hashtag step throw a [TypeError], caught, so for type 'all' or
    'hashtags' the result is the empty list.  For type 'all' and a string
    prefix (the empty one included) whose three queries are answered, the
    result is the first [size] of the post, user and hashtag suggestions
    built from the engine's hits; for a prefix that is not a string, once
    the posts query is answered the users query is sent too, and then the
    error is logged and [[]] returned. *)
Theorem autocomplete_prefix_behaviour :
  forall es numberToString prefix o tr,
    (exists l, fst (SearchService.autocomplete es numberToString prefix o tr) = Ok l
               /\ List.length l <= SearchService.lo_size o)
    /\ ((SearchService.lo_type o = "all" \/ SearchService.lo_type o = "hashtags") ->
        (forall s, prefix <> JStr s) ->
        fst (SearchService.autocomplete es numberToString prefix o tr) = Ok [])
    /\ (SearchService.lo_type o = "all" ->
        exists ev, snd (SearchService.autocomplete es numberToString prefix o tr) =
          tr ++ [Req (ReqSearch [POSTS]
                        (SearchService.prefix_body prefix ["caption.autocomplete"; "tags"] o
                           ["caption"; "category"]))] ++ ev)
    /\ (SearchService.lo_type o = "all" ->
        forall s r1 ps r2 r3,
          prefix = JStr s ->
          es_search es [POSTS] (SearchService.prefix_body prefix ["caption.autocomplete"; "tags"] o
                                  ["caption"; "category"]) = Ok r1 ->
          Forall2 (fun h p => SearchService.post_suggestion h [] = (Ok p, [])) (res_hits r1) ps ->
          es_search es [USERS] (SearchService.prefix_body prefix
                                  ["username.autocomplete"; "displayName.autocomplete"] o
                                  ["username"; "displayName"; "verified"]) = Ok r2 ->
          es_search es [HASHTAGS]
            (SearchService.hashtag_prefix_body (JStr (replace_first_hash s)) o) = Ok r3 ->
          SearchService.autocomplete es numberToString prefix o tr =
            (Ok (firstn (SearchService.lo_size o)
                   (ps ++ map SearchService.user_suggestion (res_hits r2)
                       ++ map (SearchService.hashtag_suggestion numberToString) (res_hits r3))),
             tr ++ [Req (ReqSearch [POSTS] (SearchService.prefix_body prefix
                                              ["caption.autocomplete"; "tags"] o
                                              ["caption"; "category"]));
                    Req (ReqSearch [USERS] (SearchService.prefix_body prefix
                                              ["username.autocomplete"; "displayName.autocomplete"] o
                                              ["username"; "displayName"; "verified"]));
                    Req (ReqSearch [HASHTAGS]
                           (SearchService.hashtag_prefix_body (JStr (replace_first_hash s)) o))]))
    /\ (SearchService.lo_type o = "all" ->
        (forall s, prefix <> JStr s) ->
        forall r1 ps,
          es_search es [POSTS] (SearchService.prefix_body prefix ["caption.autocomplete"; "tags"] o
                                  ["caption"; "category"]) = Ok r1 ->
          Forall2 (fun h p => SearchService.post_suggestion h [] = (Ok p, [])) (res_hits r1) ps ->
          SearchService.autocomplete es numberToString prefix o tr =
            (Ok [],
             tr ++ [Req (ReqSearch [POSTS] (SearchService.prefix_body prefix
                                              ["caption.autocomplete"; "tags"] o
                                              ["caption"; "category"]));
                    Req (ReqSearch [USERS] (SearchService.prefix_body prefix
                                              ["username.autocomplete"; "displayName.autocomplete"] o
                                              ["username"; "displayName"; "verified"]));
                    Log "[SearchService] Autocomplete error:"])).
Proof.
  intros es numberToString prefix o tr.
  split; [|split; [|split; [|split]]].
  - apply yields_total.
    + unfold SearchService.autocomplete. cbv zeta.
      apply yields_catch.
      * apply yields_bind; intros s1. apply yields_bind; intros s2.
        apply yields_bind; intros s3. apply yields_ret. apply firstn_le_length.
      * intros e. apply yields_bind; intros u. apply yields_ret. simpl. lia.
    + apply autocomplete_total.
  - intros Htype Hstr.
    unfold SearchService.autocomplete. cbv zeta.
    apply catch_of_failing; [|reflexivity].
    apply yields_bind; intros s1. apply yields_bind; intros s2.
    apply yields_bind_fail.
    assert (Hc : (String.eqb (SearchService.lo_type o) "all"
                  || String.eqb (SearchService.lo_type o) "hashtags")%bool = true)
      by (destruct Htype as [Ht|Ht]; rewrite Ht; reflexivity).
    rewrite Hc.
    apply yields_bind_fail.
    destruct prefix; try (apply yields_lift_throw).
    exfalso. eapply Hstr. reflexivity.
  - intros Htype.
    unfold SearchService.autocomplete. cbv zeta. rewrite Htype.
    apply starts_with_catch; [|appends_tac].
    apply starts_with_bind.
    + cbn [String.eqb orb]. apply starts_with_bind; [|appends_tac].
      intros tr'. exists []. reflexivity.
    + appends_tac.
  - intros Htype s r1 ps r2 r3 -> H1 Hps H2 H3.
    unfold SearchService.autocomplete. rewrite Htype.
    cbv beta iota zeta delta [catch bind ret lift send client_search SearchService.replace_hash
                               String.eqb Ascii.eqb Bool.eqb orb].
    rewrite H1, (mapM_post_suggestion_ok _ _ _ Hps).
    rewrite H2, H3. rewrite <- !app_assoc. reflexivity.
  - intros Htype Hstr r1 ps H1 Hps.
    assert (Hr : SearchService.replace_hash prefix = Throw TypeError)
      by (destruct prefix; try reflexivity; exfalso; eapply Hstr; reflexivity).
    unfold SearchService.autocomplete. rewrite Htype.
    cbv beta iota zeta delta [catch bind ret lift send client_search log
                               String.eqb Ascii.eqb Bool.eqb orb].
    rewrite H1, (mapM_post_suggestion_ok _ _ _ Hps). rewrite Hr.
    destruct (es_search es [USERS] _); rewrite <- !app_assoc; reflexivity.
Qed.

(** C2 fails as stated: the empty prefix is sent to the engine and its
    matches come back; the [null] prefix also reaches the engine (the posts
    and users queries run before the hashtag step throws). *)
Lemma autocomplete_empty_prefix_counterexample :
  fst (SearchService.autocomplete Fixtures.chatty_engine (fun _ => "0") (JStr "")
         SearchService.default_autocomplete_options []) <> Ok []
  /\ snd (SearchService.autocomplete Fixtures.chatty_engine (fun _ => "0") (JStr "")
            SearchService.default_autocomplete_options []) <> []
  /\ snd (SearchService.autocomplete Fixtures.chatty_engine (fun _ => "0") JNull
            SearchService.default_autocomplete_options []) <> [].
Proof. split; [|split]; intros H; vm_compute in H; discriminate H. Qed.

Lemma autocomplete_prefix_behaviour_witness :
  fst (SearchService.autocomplete Fixtures.chatty_engine (fun _ => "0") JNull
         SearchService.default_autocomplete_options []) = Ok []
  /\ (exists ev, snd (SearchService.autocomplete Fixtures.chatty_engine (fun _ => "0") (JStr "")
                       SearchService.default_autocomplete_options []) =
       [] ++ [Req (ReqSearch [POSTS]
                (SearchService.prefix_body (JStr "") ["caption.autocomplete"; "tags"]
                   SearchService.default_autocomplete_options ["caption"; "category"]))] ++ ev)
  /\ (exists l tr', SearchService.autocomplete Fixtures.chatty_engine (fun _ => "0") (JStr "")
                      SearchService.default_autocomplete_options [] = (Ok l, tr')
                   /\ List.length l = 3 /\ List.length tr' = 3)
  /\ (exists tr', SearchService.autocomplete Fixtures.chatty_engine (fun _ => "0") JNull
                    SearchService.default_autocomplete_options [] = (Ok [], tr')
                 /\ List.length tr' = 3).
Proof.
  split; [|split; [|split]].
  - apply (proj1 (proj2 (autocomplete_prefix_behaviour Fixtures.chatty_engine (fun _ => "0") JNull
                           SearchService.default_autocomplete_options []))).
    + left. reflexivity.
    + intros s H. discriminate H.
  - apply (proj1 (proj2 (proj2 (autocomplete_prefix_behaviour Fixtures.chatty_engine (fun _ => "0")
                                  (JStr "") SearchService.default_autocomplete_options [])))).
    reflexivity.
  - do 2 eexists. split.
    + apply (proj1 (proj2 (proj2 (proj2 (autocomplete_prefix_behaviour Fixtures.chatty_engine
                                           (fun _ => "0") (JStr "")
                                           SearchService.default_autocomplete_options []))))
               eq_refl ""
               (Fixtures.one_hit "p1" [("caption", JStr "Rocq tips"); ("tag", JStr "rocq")])
               [JObj [("type", JStr "post"); ("text", JStr "Rocq tips"); ("category", JUndef)]]
               (Fixtures.one_hit "p1" [("caption", JStr "Rocq tips"); ("tag", JStr "rocq")])
               (Fixtures.one_hit "p1" [("caption", JStr "Rocq tips"); ("tag", JStr "rocq")]));
        try reflexivity.
      repeat constructor.
    + split; reflexivity.
  - eexists. split.
    + apply (proj2 (proj2 (proj2 (proj2 (autocomplete_prefix_behaviour Fixtures.chatty_engine
                                           (fun _ => "0") JNull
                                           SearchService.default_autocomplete_options []))))
               eq_refl (fun s H => ltac:(discriminate H))
               (Fixtures.one_hit "p1" [("caption", JStr "Rocq tips"); ("tag", JStr "rocq")])
               [JObj [("type", JStr "post"); ("text", JStr "Rocq tips"); ("category", JUndef)]]);
        try reflexivity.
      repeat constructor.
    + reflexivity.
Defined.

(** ** Objects *)

Lemma get_set_other (o : obj) (k k' : string) (v : jsval) :
  k <> k' -> get (set o k' v) k = get o k.
Proof.
  intros Hne. induction o as [|[k1 v1] r IH]; simpl.
  - destruct (String.eqb_spec k k'); [contradiction|reflexivity].
  - destruct (String.eqb_spec k' k1) as [->|Hk'].
    + simpl. destruct (String.eqb_spec k k1); [contradiction|reflexivity].
    + simpl. destruct (String.eqb k k1); [reflexivity|exact IH].
Qed.

Lemma get_set_same (o : obj) (k : string) (v : jsval) : get (set o k v) k = v.
Proof.
  induction o as [|[k1 v1] r IH]; simpl.
  - rewrite String.eqb_refl. reflexivity.
  - destruct (String.eqb_spec k k1) as [->|Hk].
    + simpl. rewrite String.eqb_refl. reflexivity.
    + simpl. apply String.eqb_neq in Hk. rewrite Hk. exact IH.
Qed.

(** A key the spread source does not own keeps its value. *)
Lemma get_spread_not_in (o src : obj) (k : string) :
  ~ In k (map fst src) -> get (spread o src) k = get o k.
Proof.
  unfold spread. revert o. induction src as [|[k1 v1] r IH]; intros o Hnin; simpl.
  - reflexivity.
  - simpl in Hnin. rewrite IH by tauto. apply get_set_other. intros ->. tauto.
Qed.

(** ** Similar content *)

Lemma in_firstn {A} (n : nat) (l : list A) (x : A) : In x (firstn n l) -> In x l.
Proof.
  intros H. rewrite <- (firstn_skipn n l). apply in_or_app. left. exact H.
Qed.

(** C5 (as amended).  [findSimilar(id, type, size)] never throws and returns
    at most [size] entries.  It returns [] when the source lookup fails or the
    source has no embedding; otherwise its first two requests are the lookup
    and a nearest-neighbour query for [size + 1] neighbours ([size * 5]
    candidates).  Each entry comes from a neighbour whose engine id differs
    from [id]; the entry's [id] field is that engine id unless the stored
    neighbour has an [id] field of its own, which the spread of [_source]
    writes over it.  When the lookup and the query are answered, the result
    is exactly the first [size] of the neighbours whose engine id differs
    from [id], in the engine's order. *)
Theorem findSimilar_excludes_source :
  forall es id type size tr,
    let index := SearchService.posts_or type USERS in
    (exists l, fst (SearchService.findSimilar es id type size tr) = Ok l /\ List.length l <= size)
    /\ (forall e, es_get es index id = Throw e ->
          fst (SearchService.findSimilar es id type size tr) = Ok [])
    /\ (forall d, es_get es index id = Ok d -> truthy (get (get_source d) "embedding") = false ->
          fst (SearchService.findSimilar es id type size tr) = Ok [])
    /\ (forall d, es_get es index id = Ok d -> truthy (get (get_source d) "embedding") = true ->
          exists ev, snd (SearchService.findSimilar es id type size tr) =
            tr ++ [Req (ReqGet index id);
                   Req (ReqSearch [index]
                          (SearchService.knn_body (get (get_source d) "embedding") (size + 1) (size * 5)))]
               ++ ev)
    /\ (forall d resp l,
          es_get es index id = Ok d -> truthy (get (get_source d) "embedding") = true ->
          es_search es [index]
            (SearchService.knn_body (get (get_source d) "embedding") (size + 1) (size * 5)) = Ok resp ->
          fst (SearchService.findSimilar es id type size tr) = Ok l ->
          forall item, In item l ->
            exists h, In h (res_hits resp) /\ hit_id h <> id
                      /\ item = JObj (spread [("id", JStr (hit_id h)); ("score", JNum (hit_score h))]
                                             (hit_source h))
                      /\ (~ In "id" (map fst (hit_source h)) -> get_opt item "id" = JStr (hit_id h)))
    /\ (forall d resp,
          es_get es index id = Ok d -> truthy (get (get_source d) "embedding") = true ->
          es_search es [index]
            (SearchService.knn_body (get (get_source d) "embedding") (size + 1) (size * 5)) = Ok resp ->
          fst (SearchService.findSimilar es id type size tr) =
            Ok (map (fun h => JObj (spread [("id", JStr (hit_id h)); ("score", JNum (hit_score h))]
                                           (hit_source h)))
                    (firstn size (filter (fun h => negb (String.eqb (hit_id h) id)) (res_hits resp))))).
Proof.
  intros es id type size tr index.
  split; [|split; [|split; [|split; [|split]]]].
  - apply yields_total; [|apply findSimilar_total].
    unfold SearchService.findSimilar. cbv zeta.
    apply yields_catch.
    + apply yields_bind; intros d.
      destruct (negb _); [apply yields_ret; simpl; lia|].
      apply yields_bind; intros r. apply yields_ret.
      rewrite length_map. apply firstn_le_length.
    + intros e. apply yields_bind; intros u. apply yields_ret. simpl. lia.
  - intros e He.
    unfold SearchService.findSimilar, catch, bind, client_get, send. cbv zeta.
    fold index. rewrite He. reflexivity.
  - intros d Hd Hemb.
    unfold SearchService.findSimilar, catch, bind, client_get, send. cbv zeta.
    fold index. rewrite Hd. simpl negb. rewrite Hemb. reflexivity.
  - intros d Hd Hemb.
    unfold SearchService.findSimilar. cbv zeta. fold index.
    apply starts_with_catch; [|appends_tac].
    intros tr0. unfold bind at 1, client_get, send. rewrite Hd. rewrite Hemb. simpl negb.
    cbv iota beta.
    unfold bind, client_search, send.
    destruct (es_search es [index] _) as [r|e].
    + exists []. simpl. rewrite <- app_assoc. reflexivity.
    + exists []. simpl. rewrite <- app_assoc. reflexivity.
  - intros d resp l Hd Hemb Hs Hl item Hin.
    unfold SearchService.findSimilar, catch, bind, client_get, client_search, send in Hl.
    cbv zeta in Hl. fold index in Hl. rewrite Hd in Hl. rewrite Hemb in Hl. simpl negb in Hl.
    cbv iota beta in Hl. rewrite Hs in Hl. simpl in Hl. injection Hl as <-.
    apply in_map_iff in Hin. destruct Hin as [h [<- Hh]].
    apply in_firstn in Hh.
    apply filter_In in Hh. destruct Hh as [Hh Hne].
    exists h. split; [exact Hh|]. split.
    + intros Heq. subst id. rewrite String.eqb_refl in Hne. discriminate Hne.
    + split; [reflexivity|]. intros Hnin. simpl.
      rewrite get_spread_not_in by exact Hnin. reflexivity.
  - intros d resp Hd Hemb Hs.
    unfold SearchService.findSimilar, catch, bind, client_get, client_search, send.
    cbv zeta. fold index. rewrite Hd. rewrite Hemb. simpl negb.
    cbv iota beta. rewrite Hs. reflexivity.
Qed.

(** C5 fails as stated: the neighbour [b] of post [a] was stored with its
    own field [id: "a"], and the entry built from it carries the queried id. *)
Lemma findSimilar_self_id_counterexample :
  fst (SearchService.findSimilar Fixtures.similar_engine "a" "posts" 10 []) =
    Ok [JObj [("id", JStr "a"); ("score", JNum 1%R)]].
Proof. reflexivity. Qed.

Lemma findSimilar_excludes_source_witness :
  fst (SearchService.findSimilar Fixtures.engine_down "a" "posts" 10 []) = Ok []
  /\ (exists ev, snd (SearchService.findSimilar Fixtures.similar_engine "a" "posts" 10 []) =
       [] ++ [Req (ReqGet POSTS "a");
              Req (ReqSearch [POSTS] (SearchService.knn_body (JArr [JNum 1%R]) 11 50))] ++ ev)
  /\ exists l, fst (SearchService.findSimilar Fixtures.similar_engine "a" "posts" 10 []) = Ok l
               /\ List.length l = 1.
Proof.
  split; [|split].
  - apply (proj1 (proj2 (findSimilar_excludes_source Fixtures.engine_down "a" "posts" 10 []))
             ConnectionError).
    reflexivity.
  - apply (proj1 (proj2 (proj2 (proj2 (findSimilar_excludes_source Fixtures.similar_engine
                                         "a" "posts" 10 []))))
             (mkGetResponse [("embedding", JArr [JNum 1%R])])); reflexivity.
  - eexists. split.
    + apply (proj2 (proj2 (proj2 (proj2 (proj2 (findSimilar_excludes_source Fixtures.similar_engine
                                                  "a" "posts" 10 [])))))
               (mkGetResponse [("embedding", JArr [JNum 1%R])])
               (Fixtures.one_hit "b" [("id", JStr "a")])); reflexivity.
    + reflexivity.
Defined.

(** ** Recommendations *)







(** ** Ids of the sync passes *)

Section AddsLemmas.
Context {A B : Type} (Q : event -> Prop).

Lemma adds_ret (a : A) : adds Q (ret a).
Proof. intros tr. exists []. rewrite app_nil_r. split; [reflexivity | constructor]. Qed.

Lemma adds_log (msg : string) : Q (Log msg) -> adds Q (log msg).
Proof. intros H tr. exists [Log msg]. split; [reflexivity | constructor; auto]. Qed.

Lemma adds_send (r : request) (answer : result A) : Q (Req r) -> adds Q (send r answer).
Proof. intros H tr. exists [Req r]. split; [reflexivity | constructor; auto]. Qed.

Lemma adds_bind (R : A -> Prop) (m : M A) (k : A -> M B) :
  adds Q m -> yields R m -> (forall a, R a -> adds Q (k a)) -> adds Q (bind m k).
Proof.
  intros Hm Hy Hk tr. unfold bind. destruct (Hm tr) as [ev1 [H1 F1]]. specialize (Hy tr).
  destruct (m tr) as [[a|e] tr'] eqn:E; simpl in H1, Hy; subst tr'.
  - destruct (Hk a Hy (tr ++ ev1)) as [ev2 [H2 F2]]. exists (ev1 ++ ev2).
    rewrite H2, app_assoc. split; [reflexivity | apply Forall_app; auto].
  - exists ev1. auto.
Qed.

Lemma adds_catch (m : M A) (h : error -> M A) :
  adds Q m -> (forall e, adds Q (h e)) -> adds Q (catch m h).
Proof.
  intros Hm Hh tr. unfold catch. destruct (Hm tr) as [ev1 [H1 F1]].
  destruct (m tr) as [[a|e] tr'] eqn:E; simpl in H1; subst tr'.
  - exists ev1. auto.
  - destruct (Hh e (tr ++ ev1)) as [ev2 [H2 F2]]. exists (ev1 ++ ev2).
    rewrite H2, app_assoc. split; [reflexivity | apply Forall_app; auto].
Qed.

Lemma yields_true (m : M A) : yields (fun _ => True) m.
Proof. intros tr. destruct (fst (m tr)); trivial. Qed.

End AddsLemmas.

(** [mapM] over a pure, fallible transformation adds no event; its result
    lists the transformation's results, in order. *)
Lemma mapM_lift {A B} (f : A -> result B) (l : list A) (tr : list event) :
  exists r, mapM (fun y => lift (f y)) l tr = (r, tr)
            /\ (forall docs, r = Ok docs -> Forall2 (fun y d => f y = Ok d) l docs).
Proof.
  induction l as [|x l IH].
  - exists (Ok []). split; [reflexivity|]. intros docs [= <-]. constructor.
  - destruct IH as [r [Hr Hf]]. simpl. unfold bind at 1, lift at 1.
    destruct (f x) as [b|e] eqn:Ef.
    + unfold bind. rewrite Hr. destruct r as [docs|e].
      * exists (Ok (b :: docs)). split; [reflexivity|].
        intros docs' [= <-]. constructor; auto.
      * exists (Throw e). split; [reflexivity|]. discriminate.
    + exists (Throw e). split; [reflexivity|]. discriminate.
Qed.

Lemma adds_mapM_lift {A B} (Q : event -> Prop) (f : A -> result B) (l : list A) :
  adds Q (mapM (fun y => lift (f y)) l).
Proof.
  intros tr. destruct (mapM_lift f l tr) as [r [Hr _]]. rewrite Hr.
  exists []. rewrite app_nil_r. split; [reflexivity | constructor].
Qed.

Lemma yields_mapM_lift {A B} (f : A -> result B) (l : list A) :
  yields (fun docs => Forall2 (fun y d => f y = Ok d) l docs) (mapM (fun y => lift (f y)) l).
Proof.
  intros tr. destruct (mapM_lift f l tr) as [r [Hr Hf]]. rewrite Hr. simpl.
  destruct r; auto.
Qed.

Lemma Forall2_Forall_r {A B} (R : A -> B -> Prop) (P : B -> Prop) (l1 : list A) (l2 : list B) :
  Forall2 R l1 l2 -> (forall x y, In x l1 -> R x y -> P y) -> Forall P l2.
Proof.
  induction 1 as [|x y l1 l2 Hxy _ IH]; intros H; constructor.
  - apply (H x); simpl; auto.
  - apply IH. intros x' y' Hin. apply H. simpl. auto.
Qed.

Lemma bulkIndex_adds es index docs (P : obj -> Prop) :
  Forall P docs -> adds (IndexSyncWorker.sync_event index P) (IndexSyncWorker.bulkIndex es index docs).
Proof.
  intros HP. unfold IndexSyncWorker.bulkIndex. destruct docs as [|d docs'].
  - apply adds_ret.
  - apply adds_catch.
    + apply adds_bind with (R := fun _ => True); [| apply yields_true |].
      * unfold client_bulk. apply adds_send. simpl. exists (d :: docs'). auto.
      * intros r _. destruct (bulk_errors r); [apply adds_log; exact I | apply adds_ret].
    + intros e. apply adds_log. exact I.
Qed.

Lemma insert_by_in {A} (key : A -> string) (x y : A) (l : list A) :
  In y (IndexSyncWorker.insert_by key x l) -> y = x \/ In y l.
Proof.
  induction l as [|z l IH]; simpl.
  - intros [H|[]]. auto.
  - destruct (String.leb (key x) (key z)); simpl.
    + intros [H|[H|H]]; auto.
    + intros [H|H]; [auto|]. destruct (IH H); auto.
Qed.

Lemma find_batch_in {A} (key : A -> string) coll lastId n (x : A) :
  In x (IndexSyncWorker.find_batch key coll lastId n) -> In x coll.
Proof.
  unfold IndexSyncWorker.find_batch. intros H. apply in_firstn in H.
  assert (Hs : forall l, In x (IndexSyncWorker.sort_by key l) -> In x l).
  { induction l as [|z l IH]; simpl; [auto|].
    intros Hin. destruct (insert_by_in key z x _ Hin); auto. }
  apply Hs in H. apply filter_In in H. tauto.
Qed.

Lemma sync_loop_adds es {A} (key : A -> string) (transform : A -> result obj) index coll
    (P : obj -> Prop) :
  (forall x doc, In x coll -> transform x = Ok doc -> P doc) ->
  forall fuel lastId total,
    adds (IndexSyncWorker.sync_event index P)
         (IndexSyncWorker.sync_loop es key transform index coll fuel lastId total).
Proof.
  intros HP fuel. induction fuel as [|fuel IH]; intros lastId total; cbn [IndexSyncWorker.sync_loop].
  - apply adds_ret.
  - destruct (IndexSyncWorker.find_batch key coll lastId IndexSyncWorker.batchSize)
      as [|x r] eqn:Eb; [apply adds_ret|].
    apply adds_bind with (R := fun docs => Forall2 (fun y d => transform y = Ok d) (x :: r) docs).
    + apply adds_mapM_lift.
    + apply yields_mapM_lift.
    + intros docs HF. apply adds_bind with (R := fun _ => True); [| apply yields_true | auto].
      apply bulkIndex_adds. apply (Forall2_Forall_r _ _ _ _ HF).
      intros y d Hy Hd. apply (HP y); [|exact Hd].
      apply (find_batch_in key coll lastId IndexSyncWorker.batchSize). rewrite Eb. exact Hy.
Qed.

Lemma transformPost_id now p doc :
  IndexSyncWorker.transformPost now p = Ok doc -> get doc "_id" = JStr (post_id p).
Proof.
  unfold IndexSyncWorker.transformPost. destruct (IndexSyncWorker.extractHashtags _); [|discriminate].
  intros [= <-]. reflexivity.
Qed.

Lemma transformUser_id u doc :
  IndexSyncWorker.transformUser u = Ok doc -> get doc "_id" = JStr (IndexSyncWorker.user_id u).
Proof. unfold IndexSyncWorker.transformUser. intros [= <-]. reflexivity. Qed.

Section HashtagGroups.
Variable Pk : string -> Prop.

Lemma add_to_group_keys t at_ gs :
  (forall g, In g gs -> Pk (IndexSyncWorker.group_id g)) -> Pk t ->
  forall g, In g (IndexSyncWorker.add_to_group t at_ gs) -> Pk (IndexSyncWorker.group_id g).
Proof.
  intros Hgs Ht. induction gs as [|g0 gs IH]; simpl.
  - intros g [<-|[]]. exact Ht.
  - destruct (String.eqb t (IndexSyncWorker.group_id g0)).
    + intros g [<-|Hg]; [apply (Hgs g0); simpl; auto | apply Hgs; simpl; auto].
    + intros g [<-|Hg]; [apply Hgs; simpl; auto|].
      apply IH; [intros g' Hg'; apply Hgs; simpl; auto | exact Hg].
Qed.

Lemma group_hashtags_keys (l : list (string * R)) :
  (forall x, In x l -> Pk (fst x)) ->
  forall g, In g (IndexSyncWorker.group_hashtags l) -> Pk (IndexSyncWorker.group_id g).
Proof.
  unfold IndexSyncWorker.group_hashtags.
  assert (H : forall gs, (forall g, In g gs -> Pk (IndexSyncWorker.group_id g)) ->
            (forall x, In x l -> Pk (fst x)) ->
            forall g, In g (fold_left (fun gs x => IndexSyncWorker.add_to_group (fst x) (snd x) gs) l gs) ->
            Pk (IndexSyncWorker.group_id g)).
  { induction l as [|x l IH]; simpl; intros gs Hgs Hl; [exact Hgs|].
    apply IH; [|intros y Hy; apply Hl; auto].
    apply add_to_group_keys; [exact Hgs | apply Hl; auto]. }
  intros Hl. apply H; [intros g []|exact Hl].
Qed.

End HashtagGroups.

Lemma insert_by_count_desc_in g x l :
  In x (IndexSyncWorker.insert_by_count_desc g l) -> x = g \/ In x l.
Proof.
  induction l as [|h l IH]; simpl.
  - intros [H|[]]. auto.
  - destruct (Nat.ltb _ _); simpl.
    + intros [H|[H|H]]; auto.
    + intros [H|H]; [auto|]. destruct (IH H); auto.
Qed.

(** Every aggregated hashtag is a value of some post's [hashtags]. *)
Lemma aggregate_hashtags_keys posts g :
  In g (IndexSyncWorker.aggregate_hashtags posts) ->
  exists p, In p posts /\ In (IndexSyncWorker.group_id g) (post_hashtags p).
Proof.
  unfold IndexSyncWorker.aggregate_hashtags. intros H.
  assert (Hs : forall l, In g (fold_right IndexSyncWorker.insert_by_count_desc [] l) -> In g l).
  { induction l as [|z l IH]; simpl; [auto|].
    intros Hin. destruct (insert_by_count_desc_in z g _ Hin); auto. }
  apply Hs in H.
  apply (group_hashtags_keys (fun t => exists p, In p posts /\ In t (post_hashtags p))
           (IndexSyncWorker.unwind_hashtags posts)); [|exact H].
  intros [t at_] Hx. unfold IndexSyncWorker.unwind_hashtags in Hx.
  apply in_flat_map in Hx. destruct Hx as [p [Hp Hx]].
  apply in_map_iff in Hx. destruct Hx as [t' [[= <- _] Ht]]. exists p. auto.
Qed.

(** C7.  A sync pass only adds log lines and bulk requests, and every bulk
    request is [bulk_operations index docs]: each document goes with an
    [index] action whose [_id] is the document's own [_id].  For [syncPosts]
    and [syncUsers] every document is the transform of an entity of the
    collection, and its [_id] is that entity's [_id] as a string; for
    [syncHashtags] every document is built from an aggregated hashtag, and
    its [_id] is the hashtag value itself (the grouping key, a value of some
    post's [hashtags]).  Each write therefore targets the entity's own key. *)
Theorem sync_ids_are_primary_keys :
  forall es now posts users tr,
    (exists ev, snd (IndexSyncWorker.syncPosts es now posts tr) = tr ++ ev
      /\ Forall (IndexSyncWorker.sync_event POSTS
                  (fun doc => exists p, In p posts /\ IndexSyncWorker.transformPost now p = Ok doc
                                        /\ get doc "_id" = JStr (post_id p))) ev)
    /\ (exists ev, snd (IndexSyncWorker.syncUsers es users tr) = tr ++ ev
      /\ Forall (IndexSyncWorker.sync_event USERS
                  (fun doc => exists u, In u users /\ IndexSyncWorker.transformUser u = Ok doc
                                        /\ get doc "_id" = JStr (IndexSyncWorker.user_id u))) ev)
    /\ (exists ev, snd (IndexSyncWorker.syncHashtags es now posts tr) = tr ++ ev
      /\ Forall (IndexSyncWorker.sync_event HASHTAGS
                  (fun doc => exists g p, doc = IndexSyncWorker.hashtag_document now g
                                          /\ In p posts /\ In (IndexSyncWorker.group_id g) (post_hashtags p)
                                          /\ get doc "_id" = JStr (IndexSyncWorker.group_id g))) ev).
Proof.
  intros es now posts users tr. split; [|split].
  - revert tr. unfold IndexSyncWorker.syncPosts. apply adds_catch; [|intros e; apply adds_log; exact I].
    apply adds_bind with (R := fun _ => True); [| apply yields_true | intros; apply adds_ret].
    apply sync_loop_adds. intros p doc Hp Hd. exists p. split; [exact Hp|]. split; [exact Hd|].
    apply (transformPost_id now). exact Hd.
  - revert tr. unfold IndexSyncWorker.syncUsers. apply adds_catch; [|intros e; apply adds_log; exact I].
    apply adds_bind with (R := fun _ => True); [| apply yields_true | intros; apply adds_ret].
    apply sync_loop_adds. intros u doc Hu Hd. exists u. split; [exact Hu|]. split; [exact Hd|].
    apply transformUser_id. exact Hd.
  - revert tr. unfold IndexSyncWorker.syncHashtags. apply adds_catch; [|intros e; apply adds_log; exact I].
    apply bulkIndex_adds. apply Forall_forall. intros doc Hdoc.
    apply in_map_iff in Hdoc. destruct Hdoc as [g [<- Hg]].
    destruct (aggregate_hashtags_keys posts g Hg) as [p [Hp Ht]].
    exists g, p. auto.
Qed.

(** * Further properties *)

(** ** Worker lifecycle *)

Lemma run_command_inv st c :
  ((IndexSyncWorker.isRunning st = true ->
      exists t ms, IndexSyncWorker.syncInterval st = Some t
                   /\ IndexSyncWorker.active_intervals st = [(t, ms)])
   /\ (IndexSyncWorker.isRunning st = false ->
         IndexSyncWorker.syncInterval st = None /\ IndexSyncWorker.active_intervals st = [])) ->
  let st' := IndexSyncWorker.run_command st c in
  (IndexSyncWorker.isRunning st' = true ->
      exists t ms, IndexSyncWorker.syncInterval st' = Some t
                   /\ IndexSyncWorker.active_intervals st' = [(t, ms)])
  /\ (IndexSyncWorker.isRunning st' = false ->
        IndexSyncWorker.syncInterval st' = None /\ IndexSyncWorker.active_intervals st' = []).
Proof.
  intros [Hon Hoff] st'. subst st'. destruct c as [ms|]; simpl.
  - unfold IndexSyncWorker.start. destruct (IndexSyncWorker.isRunning st) eqn:E.
    + rewrite E. split; [exact Hon | discriminate].
    + destruct (Hoff eq_refl) as [Hs Ha]. simpl. split; [|discriminate].
      intros _. rewrite Ha. eexists _, _. split; reflexivity.
  - unfold IndexSyncWorker.stop. split; [simpl; destruct (IndexSyncWorker.syncInterval st); discriminate|].
    intros _. destruct (IndexSyncWorker.isRunning st) eqn:E.
    + destruct (Hon eq_refl) as [t [ms [Hs Ha]]]. rewrite Hs, Ha. simpl.
      rewrite Nat.eqb_refl. split; reflexivity.
    + destruct (Hoff eq_refl) as [Hs Ha]. rewrite Hs, Ha. split; reflexivity.
Qed.

(** The worker's [start] and [stop], in any order and number from a fresh
    worker, keep at most one [setInterval] timer active: exactly one while
    [isRunning], held in [syncInterval], and none once stopped. *)
Theorem worker_single_interval :
  forall cs,
    let st := IndexSyncWorker.run_commands cs IndexSyncWorker.initial_state in
    (IndexSyncWorker.isRunning st = true ->
       exists t ms, IndexSyncWorker.syncInterval st = Some t
                    /\ IndexSyncWorker.active_intervals st = [(t, ms)])
    /\ (IndexSyncWorker.isRunning st = false ->
          IndexSyncWorker.syncInterval st = None /\ IndexSyncWorker.active_intervals st = []).
Proof.
  intros cs st. subst st. unfold IndexSyncWorker.run_commands.
  assert (H0 : forall st,
    ((IndexSyncWorker.isRunning st = true ->
        exists t ms, IndexSyncWorker.syncInterval st = Some t
                     /\ IndexSyncWorker.active_intervals st = [(t, ms)])
     /\ (IndexSyncWorker.isRunning st = false ->
           IndexSyncWorker.syncInterval st = None /\ IndexSyncWorker.active_intervals st = [])) ->
    let st' := fold_left IndexSyncWorker.run_command cs st in
    (IndexSyncWorker.isRunning st' = true ->
        exists t ms, IndexSyncWorker.syncInterval st' = Some t
                     /\ IndexSyncWorker.active_intervals st' = [(t, ms)])
    /\ (IndexSyncWorker.isRunning st' = false ->
          IndexSyncWorker.syncInterval st' = None /\ IndexSyncWorker.active_intervals st' = [])).
  { induction cs as [|c cs IH]; intros st Hst; simpl; [exact Hst|].
    apply IH. apply run_command_inv. exact Hst. }
  apply H0. split; [discriminate | intros _; split; reflexivity].
Qed.

(** ** Status *)

(** [getStatus] never fails and writes no log: it reports [isRunning] and one
    entry per index of [INDICES], in declaration order, whose [indexed] is
    the engine's count, or 0 when counting that index fails. *)
Theorem getStatus_reports_every_index :
  forall running count tr,
    IndexSyncWorker.getStatus running count tr =
      (Ok [("isRunning", JBool running);
           ("indices", JObj (map (fun kv => (fst kv, JObj [("indexed",
                                  num (match count (snd kv) with Ok n => n | Throw _ => 0 end))]))
                               IndexSyncWorker.INDICES))], tr).
Proof.
  intros running count tr. unfold IndexSyncWorker.getStatus, IndexSyncWorker.INDICES. simpl.
  unfold catch, bind, lift, ret.
  destruct (count POSTS); destruct (count USERS); destruct (count COMMENTS);
    destruct (count HASHTAGS); destruct (count SEARCH_HISTORY); reflexivity.
Qed.

(** ** Real-time writes of the worker *)

(** [indexPost] never throws.  When the post transforms, it sends one index
    request for the post's own id with [refresh: true], and logs only if
    the engine rejects it; when the transform throws, it logs and sends
    nothing.  [indexUser] always sends one index request for the user's own
    id, logging only an engine failure. *)
Theorem realtime_index_writes :
  (forall es now p tr doc,
     IndexSyncWorker.transformPost now p = Ok doc ->
     IndexSyncWorker.indexPost es now p tr =
       (Ok tt, tr ++ [Req (ReqIndex POSTS (Some (post_id p)) doc true)]
                  ++ match es_index es POSTS (Some (post_id p)) doc with
                     | Ok _ => []
                     | Throw _ => [Log "[IndexSync] Index post error:"]
                     end))
  /\ (forall es now p tr e,
        IndexSyncWorker.transformPost now p = Throw e ->
        IndexSyncWorker.indexPost es now p tr = (Ok tt, tr ++ [Log "[IndexSync] Index post error:"]))
  /\ (forall es u tr,
        exists doc, IndexSyncWorker.transformUser u = Ok doc
          /\ IndexSyncWorker.indexUser es u tr =
               (Ok tt, tr ++ [Req (ReqIndex USERS (Some (IndexSyncWorker.user_id u)) doc true)]
                          ++ match es_index es USERS (Some (IndexSyncWorker.user_id u)) doc with
                             | Ok _ => []
                             | Throw _ => [Log "[IndexSync] Index user error:"]
                             end)).
Proof.
  split; [|split].
  - intros es now p tr doc Hd.
    pose proof (transformPost_id now p doc Hd) as Hid.
    unfold IndexSyncWorker.indexPost, catch, bind, lift, client_index, send. rewrite Hd, Hid.
    destruct (es_index _ _ _ _) as [[]|]; unfold log; simpl; rewrite ?app_nil_r, <- ?app_assoc; reflexivity.
  - intros es now p tr e He.
    unfold IndexSyncWorker.indexPost, catch, bind, lift. rewrite He. reflexivity.
  - intros es u tr. unfold IndexSyncWorker.indexUser.
    destruct (IndexSyncWorker.transformUser u) as [doc|e] eqn:Hu;
      [|unfold IndexSyncWorker.transformUser in Hu; discriminate].
    exists doc. split; [reflexivity|].
    pose proof (transformUser_id u doc Hu) as Hid.
    unfold catch, bind, lift, client_index, send. rewrite Hid.
    destruct (es_index _ _ _ _) as [[]|]; unfold log; simpl; rewrite ?app_nil_r, <- ?app_assoc; reflexivity.
Qed.

Lemma realtime_index_writes_witness :
  IndexSyncWorker.indexPost Fixtures.engine_down 0 Fixtures.sample_post [] =
    (Ok tt, [] ++ [Req (ReqIndex POSTS (Some (post_id Fixtures.sample_post))
                     (match IndexSyncWorker.transformPost 0 Fixtures.sample_post with
                      | Ok d => d | Throw _ => [] end) true)]
               ++ [Log "[IndexSync] Index post error:"]).
Proof.
  apply (proj1 realtime_index_writes Fixtures.engine_down 0%R Fixtures.sample_post []).
  reflexivity.
Defined.

(** ** Autocomplete, query building and result formatting *)

(** [autocomplete] with a type other than [all], [posts], [users] and
    [hashtags] sends no request, logs nothing and returns []. *)
Theorem autocomplete_unknown_type :
  forall es numberToString prefix o tr,
    SearchService.lo_type o <> "all" -> SearchService.lo_type o <> "posts" ->
    SearchService.lo_type o <> "users" -> SearchService.lo_type o <> "hashtags" ->
    SearchService.autocomplete es numberToString prefix o tr = (Ok [], tr).
Proof.
  intros es numberToString prefix o tr H1 H2 H3 H4.
  apply String.eqb_neq in H1, H2, H3, H4.
  unfold SearchService.autocomplete. rewrite H1, H2, H3, H4. simpl.
  destruct (SearchService.lo_size o); reflexivity.
Qed.

Lemma autocomplete_unknown_type_witness :
  SearchService.autocomplete Fixtures.chatty_engine (fun _ => "0") (JStr "ro")
    (SearchService.mkListOptions "comments" 10 JNull) [] = (Ok [], []).
Proof. apply autocomplete_unknown_type; discriminate. Defined.

Lemma prop_ok v k : v <> JNull -> v <> JUndef -> SearchService.prop v k = Ok (get_opt v k).
Proof. intros H1 H2. destruct v; try reflexivity; contradiction. Qed.

Lemma format_bucket_list_ok bs :
  Forall (fun b => b <> JNull /\ b <> JUndef) bs ->
  SearchService.format_bucket_list bs
  = Ok (map (fun b => JObj [("value", get_opt b "key"); ("count", get_opt b "doc_count")]) bs).
Proof.
  induction 1 as [|b bs [Hn Hu] _ IH]; [reflexivity|]. simpl.
  unfold SearchService.format_bucket. rewrite !prop_ok by assumption. rewrite IH. reflexivity.
Qed.

Lemma format_bucket_error b e : SearchService.format_bucket b = Throw e -> e = TypeError.
Proof.
  unfold SearchService.format_bucket, SearchService.prop.
  destruct b; simpl; congruence.
Qed.

Lemma format_bucket_list_error bs e : SearchService.format_bucket_list bs = Throw e -> e = TypeError.
Proof.
  induction bs as [|b bs IH]; simpl; [discriminate|].
  destruct (SearchService.format_bucket b) as [f|e'] eqn:Eb.
  - destruct (SearchService.format_bucket_list bs) as [fs|e'']; [discriminate|].
    intros [= <-]. apply IH. reflexivity.
  - intros [= <-]. exact (format_bucket_error b e' Eb).
Qed.

Lemma format_bucket_list_nullish bs :
  In JNull bs \/ In JUndef bs -> SearchService.format_bucket_list bs = Throw TypeError.
Proof.
  induction bs as [|b bs IH]; simpl; [intros [[]|[]]|].
  intros H.
  destruct (SearchService.format_bucket b) as [f|e] eqn:Eb.
  - assert (Hr : In JNull bs \/ In JUndef bs)
      by (destruct H as [[->|H]|[->|H]]; try (vm_compute in Eb; discriminate Eb); auto).
    rewrite (IH Hr). reflexivity.
  - rewrite (format_bucket_error b e Eb). reflexivity.
Qed.

Lemma format_buckets_error v e : SearchService.format_buckets v = Throw e -> e = TypeError.
Proof.
  unfold SearchService.format_buckets. destruct v; try congruence.
  destruct (SearchService.format_bucket_list l) as [fs|e'] eqn:E; [discriminate|].
  intros [= <-]. exact (format_bucket_list_error l e' E).
Qed.

Lemma format_facets_error aggs e : SearchService.format_facets aggs = Throw e -> e = TypeError.
Proof.
  induction aggs as [|[key agg] r IH]; simpl; [discriminate|].
  destruct (SearchService.format_facets r) as [rest|e'].
  - unfold SearchService.prop. destruct agg; try congruence;
      match goal with
      | |- context [truthy ?v] =>
          destruct (truthy v); [|discriminate];
          destruct (SearchService.format_buckets v) as [f|e'] eqn:Ef; [discriminate|];
          intros [= <-]; exact (format_buckets_error _ _ Ef)
      end.
  - intros [= <-]. apply IH. reflexivity.
Qed.

(** [formatSearchResults]'s facets: when no aggregation is [null] or
    [undefined] and the [buckets] of each is falsy or an array with no
    [null] or [undefined] bucket, there is one facet per aggregation with
    truthy [buckets], in order, each listing [{ value: key, count: doc_count }]
    per bucket.  A [null] or [undefined] aggregation, a truthy non-array
    [buckets], or a [null] or [undefined] bucket makes it throw a TypeError. *)
Theorem format_facets_spec :
  forall aggs : obj,
    ((forall kv, In kv aggs ->
        snd kv <> JNull /\ snd kv <> JUndef
        /\ (truthy (get_opt (snd kv) "buckets") = true ->
            exists bs, get_opt (snd kv) "buckets" = JArr bs
                       /\ Forall (fun b => b <> JNull /\ b <> JUndef) bs)) ->
     exists f, SearchService.format_facets aggs = Ok f
       /\ Forall2 (fun kv fv => fst fv = fst kv
                     /\ exists bs, get_opt (snd kv) "buckets" = JArr bs
                        /\ snd fv = JArr (map (fun b => JObj [("value", get_opt b "key");
                                                             ("count", get_opt b "doc_count")]) bs))
                  (filter (fun kv => truthy (get_opt (snd kv) "buckets")) aggs) f)
    /\ ((exists kv, In kv aggs
                    /\ (snd kv = JNull \/ snd kv = JUndef
                        \/ (truthy (get_opt (snd kv) "buckets") = true
                            /\ ((forall bs, get_opt (snd kv) "buckets" <> JArr bs)
                                \/ exists bs, get_opt (snd kv) "buckets" = JArr bs
                                              /\ (In JNull bs \/ In JUndef bs))))) ->
        SearchService.format_facets aggs = Throw TypeError).
Proof.
  induction aggs as [|[key agg] r [IH1 IH2]]; split.
  - intros _. exists []. split; constructor.
  - intros [kv [[] _]].
  - intros H. destruct IH1 as [rest [Hr HF]]; [intros kv Hkv; apply H; right; exact Hkv|].
    destruct (H (key, agg) (or_introl eq_refl)) as [Hn [Hu Hb]]. simpl in Hn, Hu, Hb.
    simpl. rewrite Hr, prop_ok by assumption.
    destruct (truthy (get_opt agg "buckets")) eqn:Ht.
    + destruct (Hb eq_refl) as [bs [Hbs Hall]].
      unfold SearchService.format_buckets. rewrite Hbs, format_bucket_list_ok by exact Hall.
      eexists. split; [reflexivity|]. constructor; [|exact HF].
      split; [reflexivity|]. exists bs. split; [exact Hbs | reflexivity].
    + exists rest. split; [reflexivity | exact HF].
  - intros [kv [[<-|Hin] Hbad]]; simpl.
    + simpl in Hbad. destruct (SearchService.format_facets r) as [rest|e] eqn:Er.
      * destruct Hbad as [->|[->|[Ht Hna]]]; [reflexivity|reflexivity|].
        assert (Hn : agg <> JNull) by (intros ->; discriminate Ht).
        assert (Hu : agg <> JUndef) by (intros ->; discriminate Ht).
        rewrite prop_ok by assumption. rewrite Ht. unfold SearchService.format_buckets.
        destruct Hna as [Hna|[bs [Hbs Hnull]]].
        -- destruct (get_opt agg "buckets") eqn:Eb; try reflexivity.
           exfalso. exact (Hna l eq_refl).
        -- rewrite Hbs, format_bucket_list_nullish by exact Hnull. reflexivity.
      * rewrite (format_facets_error r e Er). reflexivity.
    + rewrite IH2 by (exists kv; auto). reflexivity.
Qed.

Lemma format_facets_spec_witness :
  SearchService.format_facets [("categories", JObj [("buckets", JObj [])])] = Throw TypeError
  /\ SearchService.format_facets [("categories", JNull)] = Throw TypeError
  /\ SearchService.format_facets [("categories", JObj [("buckets", JArr [JNull])])] = Throw TypeError
  /\ exists f, SearchService.format_facets
                 [("categories", JObj [("buckets", JArr [JObj [("key", JStr "art");
                                                               ("doc_count", JNum 2%R)]])]);
                  ("mediaTypes", JObj [("buckets", JUndef)])] = Ok f
               /\ List.length f = 1.
Proof.
  split; [|split; [|split]].
  - apply (proj2 (format_facets_spec [("categories", JObj [("buckets", JObj [])])])).
    exists ("categories", JObj [("buckets", JObj [])]).
    split; [left; reflexivity|]. right. right. split; [reflexivity|]. left. discriminate.
  - apply (proj2 (format_facets_spec [("categories", JNull)])).
    exists ("categories", JNull). split; [left; reflexivity|]. left. reflexivity.
  - apply (proj2 (format_facets_spec [("categories", JObj [("buckets", JArr [JNull])])])).
    exists ("categories", JObj [("buckets", JArr [JNull])]).
    split; [left; reflexivity|]. right. right. split; [reflexivity|].
    right. exists [JNull]. split; [reflexivity|]. left. left. reflexivity.
  - destruct (proj1 (format_facets_spec
                [("categories", JObj [("buckets", JArr [JObj [("key", JStr "art");
                                                               ("doc_count", JNum 2%R)]])]);
                 ("mediaTypes", JObj [("buckets", JUndef)])])) as [f [Hf HF]].
    + intros kv [<-|[<-|[]]]; simpl.
      * split; [discriminate|]. split; [discriminate|]. intros _.
        eexists. split; [reflexivity|]. repeat constructor; discriminate.
      * split; [discriminate|]. split; [discriminate|]. intros H. discriminate H.
    + exists f. split; [exact Hf|]. apply Forall2_length in HF. rewrite <- HF. reflexivity.
Defined.

Lemma get_spread_in (o src : obj) (k : string) :
  NoDup (map fst src) -> In k (map fst src) -> get (spread o src) k = get src k.
Proof.
  revert o. induction src as [|[k1 v1] r IH]; intros o Hnd Hin; simpl in Hin.
  - contradiction.
  - change (spread o ((k1, v1) :: r)) with (spread (set o k1 v1) r).
    inversion Hnd as [|? ? Hnin Hnd']; subst. cbn [get].
    destruct (String.eqb_spec k k1) as [->|Hne].
    + rewrite (get_spread_not_in (set o k1 v1) r k1 Hnin). apply get_set_same.
    + destruct Hin as [Heq|Hin]; [simpl in Heq; congruence|]. apply IH; assumption.
Qed.

(** A formatted search hit: [highlights] is always the engine's highlight;
    [id], [index] and [score] are the engine's unless the stored document
    has a field of that name, and every field of the stored document other
    than [highlights] is kept as stored (keys being unique, as in JS). *)
Theorem format_hit_fields :
  forall h,
    get_opt (SearchService.format_hit h) "highlights" = hit_highlight h
    /\ (~ In "id" (map fst (hit_source h)) -> get_opt (SearchService.format_hit h) "id" = JStr (hit_id h))
    /\ (~ In "index" (map fst (hit_source h)) ->
          get_opt (SearchService.format_hit h) "index" = JStr (hit_index h))
    /\ (~ In "score" (map fst (hit_source h)) ->
          get_opt (SearchService.format_hit h) "score" = JNum (hit_score h))
    /\ (NoDup (map fst (hit_source h)) ->
          forall k, In k (map fst (hit_source h)) -> k <> "highlights" ->
            get_opt (SearchService.format_hit h) k = get (hit_source h) k).
Proof.
  intros h. unfold SearchService.format_hit. simpl.
  split; [apply get_set_same|].
  split; [|split; [|split]].
  - intros Hn. rewrite get_set_other by discriminate. rewrite get_spread_not_in by exact Hn. reflexivity.
  - intros Hn. rewrite get_set_other by discriminate. rewrite get_spread_not_in by exact Hn. reflexivity.
  - intros Hn. rewrite get_set_other by discriminate. rewrite get_spread_not_in by exact Hn. reflexivity.
  - intros Hnd k Hk Hh. rewrite get_set_other by exact Hh. apply get_spread_in; assumption.
Qed.

Lemma format_hit_fields_witness :
  get_opt (SearchService.format_hit (mkHit "p1" POSTS 1%R [("id", JStr "x")] JNull)) "id" = JStr "x".
Proof.
  apply (proj2 (proj2 (proj2 (proj2 (format_hit_fields (mkHit "p1" POSTS 1%R [("id", JStr "x")] JNull))))));
    [repeat constructor; simpl; tauto | left; reflexivity | discriminate].
Defined.

Lemma trackSearch_ok es now toISOString userId query filters resultCount tenantId tr :
  exists tr1, SearchService.trackSearch es now toISOString userId query filters resultCount tenantId tr
              = (Ok tt, tr1).
Proof.
  unfold SearchService.trackSearch, catch, bind, client_index, send.
  destruct (es_index _ _ _ _); eexists; reflexivity.
Qed.

(** What [search] resolves or rejects with depends on the engine's search
    answers only: the search-history write of [trackSearch], its time stamp
    and its failure never change it. *)
Theorem search_result_ignores_tracking :
  forall es es' now now' toISOString toISOString' query o tr tr',
    (forall index body, es_search es index body = es_search es' index body) ->
    fst (SearchService.search es now toISOString query o tr) =
    fst (SearchService.search es' now' toISOString' query o tr').
Proof.
  intros es es' now now' iso iso' query o tr tr' H.
  unfold SearchService.search, catch, bind, client_search, send. cbv zeta. rewrite H.
  destruct (es_search es' _ _) as [r|e]; [|reflexivity].
  destruct (truthy (SearchService.so_userId o)).
  - repeat match goal with
      | |- context [SearchService.trackSearch ?a ?b ?c ?d ?e ?f ?g ?h ?t] =>
          let t1 := fresh "t" in let E1 := fresh "E" in
          destruct (trackSearch_ok a b c d e f g h t) as [t1 E1]; rewrite E1
      end.
    unfold lift. destruct (SearchService.formatSearchResults r _); reflexivity.
  - unfold ret, lift. destruct (SearchService.formatSearchResults r _); reflexivity.
Qed.

Lemma search_result_ignores_tracking_witness :
  fst (SearchService.search Fixtures.chatty_engine 0 (fun _ => "t0") (JStr "rocq")
         SearchService.default_search_options []) =
  fst (SearchService.search
         (mkEngine (es_search Fixtures.chatty_engine) (es_get Fixtures.chatty_engine)
                   (fun _ _ _ => Throw ConnectionError) (es_update Fixtures.chatty_engine)
                   (es_delete Fixtures.chatty_engine) (es_bulk Fixtures.chatty_engine))
         1 (fun _ => "t1") (JStr "rocq") SearchService.default_search_options []).
Proof. apply search_result_ignores_tracking. reflexivity. Defined.

Lemma filterM_item_has_error_malformed (items : list obj) (i : obj) (tr : list event) :
  In i items -> (get i "index" = JUndef \/ get i "index" = JNull) ->
  filterM SearchService.item_has_error items tr = (Throw TypeError, tr).
Proof.
  induction items as [|x r IH]; intros Hin Hi; [contradiction|].
  cbn [filterM]. unfold bind at 1.
  destruct Hin as [<-|Hin].
  - unfold SearchService.item_has_error. destruct Hi as [-> | ->]; reflexivity.
  - assert (Hx : SearchService.item_has_error x tr = (Throw TypeError, tr)
                 \/ exists b, SearchService.item_has_error x tr = (Ok b, tr)).
    { unfold SearchService.item_has_error.
      destruct (get x "index"); (left; reflexivity) || (right; eexists; reflexivity). }
    destruct Hx as [Hx|[b Hx]]; rewrite Hx; [reflexivity|].
    unfold bind. rewrite (IH Hin Hi). reflexivity.
Qed.

(** When the engine reports bulk errors and one of its items has no [index]
    entry, [SearchService.bulkIndex] logs and throws a TypeError, although
    the bulk request was sent and answered. *)
Theorem bulkIndex_malformed_item_throws :
  forall es index documents tr r i,
    es_bulk es (SearchService.bulk_operations index documents) = Ok r ->
    bulk_errors r = true -> In i (bulk_items r) ->
    (get i "index" = JUndef \/ get i "index" = JNull) ->
    SearchService.bulkIndex es index documents tr =
      (Throw TypeError, (tr ++ [Req (ReqBulk (SearchService.bulk_operations index documents) true)])
                          ++ [Log "[SearchService] Bulk index error:"]).
Proof.
  intros es index documents tr r i Hb He Hin Hi.
  unfold SearchService.bulkIndex, catch, bind at 1, client_bulk, send. rewrite Hb.
  unfold bind at 1. rewrite He.
  rewrite (filterM_item_has_error_malformed (bulk_items r) i _ Hin Hi). reflexivity.
Qed.

Lemma bulkIndex_malformed_item_throws_witness :
  SearchService.bulkIndex
    (mkEngine (es_search Fixtures.engine_down) (es_get Fixtures.engine_down)
              (es_index Fixtures.engine_down) (es_update Fixtures.engine_down)
              (es_delete Fixtures.engine_down)
              (fun _ => Ok (mkBulkResponse true [[("update", JObj [])]])))
    POSTS [[("_id", JStr "p1")]] [] =
  (Throw TypeError,
   ([] ++ [Req (ReqBulk (SearchService.bulk_operations POSTS [[("_id", JStr "p1")]]) true)])
     ++ [Log "[SearchService] Bulk index error:"]).
Proof.
  apply (bulkIndex_malformed_item_throws _ POSTS [[("_id", JStr "p1")]] []
           (mkBulkResponse true [[("update", JObj [])]]) [("update", JObj [])]);
    [reflexivity | reflexivity | left; reflexivity | left; reflexivity].
Defined.

(** ** Hashtag extraction *)

Lemma str_app_assoc (a b c : string) : ((a ++ b) ++ c = a ++ (b ++ c))%string.
Proof. induction a as [|x a IH]; simpl; [reflexivity | rewrite IH; reflexivity]. Qed.

Lemma str_app_nil (a : string) : (a ++ "")%string = a.
Proof. induction a as [|x a IH]; simpl; [reflexivity | rewrite IH; reflexivity]. Qed.

Lemma chars_app (a b : string) :
  list_ascii_of_string (a ++ b) = list_ascii_of_string a ++ list_ascii_of_string b.
Proof. induction a as [|x a IH]; simpl; [reflexivity | rewrite IH; reflexivity]. Qed.

Lemma lower_app (a b : string) :
  IndexSyncWorker.lower (a ++ b) = (IndexSyncWorker.lower a ++ IndexSyncWorker.lower b)%string.
Proof. induction a as [|x a IH]; simpl; [reflexivity | rewrite IH; reflexivity]. Qed.

Lemma chars_lower (w : string) :
  list_ascii_of_string (IndexSyncWorker.lower w) =
  map IndexSyncWorker.lower_char (list_ascii_of_string w).
Proof. induction w as [|x w IH]; simpl; [reflexivity | rewrite IH; reflexivity]. Qed.

Lemma lower_char_props (c : ascii) :
  IndexSyncWorker.is_word_char (IndexSyncWorker.lower_char c) = IndexSyncWorker.is_word_char c
  /\ IndexSyncWorker.lower_char (IndexSyncWorker.lower_char c) = IndexSyncWorker.lower_char c.
Proof. destruct c as [[] [] [] [] [] [] [] []]; split; reflexivity. Qed.

Lemma hashtag_matches_shape (s : string) :
  forall cur,
    match cur with
    | Some w => Forall (fun c => IndexSyncWorker.is_word_char c = true) (list_ascii_of_string w)
    | None => True
    end ->
    forall t, In t (IndexSyncWorker.hashtag_matches s cur) ->
      exists w, t = ("#" ++ w)%string /\ w <> ""%string
                /\ Forall (fun c => IndexSyncWorker.is_word_char c = true) (list_ascii_of_string w).
Proof.
  induction s as [|c r IH]; intros cur Hcur t Ht.
  - simpl in Ht. destruct cur as [[|c0 w0]|]; simpl in Ht; try contradiction.
    destruct Ht as [<-|[]]. exists (String c0 w0). split; [reflexivity|]. split; [discriminate | exact Hcur].
  - simpl in Ht. destruct cur as [w|].
    + destruct (IndexSyncWorker.is_word_char c) eqn:Ec.
      * apply (IH (Some (w ++ String c "")%string)); [|exact Ht].
        rewrite chars_app. apply Forall_app. split; [exact Hcur | simpl; constructor; auto].
      * apply in_app_or in Ht. destruct Ht as [Ht|Ht].
        -- destruct w as [|c0 w0]; simpl in Ht; [contradiction|].
           destruct Ht as [<-|[]]. exists (String c0 w0).
           split; [reflexivity|]. split; [discriminate | exact Hcur].
        -- destruct (Ascii.eqb c "#"%char); [apply (IH (Some "")) | apply (IH None)];
             simpl; auto.
    + destruct (Ascii.eqb c "#"%char); [apply (IH (Some "")) | apply (IH None)]; simpl; auto.
Qed.

Lemma hashtag_matches_no_hash (s : string) :
  ~ In "#"%char (list_ascii_of_string s) -> IndexSyncWorker.hashtag_matches s None = [].
Proof.
  induction s as [|c r IH]; intros Hn; [reflexivity|].
  simpl in Hn. simpl. destruct (Ascii.eqb_spec c "#"%char) as [->|Hc]; [tauto|].
  apply IH. tauto.
Qed.

Lemma hashtag_matches_word (w : string) :
  forall acc,
    Forall (fun c => IndexSyncWorker.is_word_char c = true) (list_ascii_of_string w) ->
    (acc ++ w)%string <> ""%string ->
    IndexSyncWorker.hashtag_matches w (Some acc) = [("#" ++ (acc ++ w))%string].
Proof.
  induction w as [|c r IH]; intros acc Hw Hne.
  - rewrite str_app_nil in *. destruct acc as [|c0 a0]; [congruence | reflexivity].
  - simpl in Hw. inversion Hw as [|? ? Hc Hr]; subst.
    simpl. rewrite Hc. rewrite IH; [| exact Hr |].
    + rewrite str_app_assoc. reflexivity.
    + rewrite str_app_assoc. simpl. destruct acc; discriminate.
Qed.

(** [extractHashtags] on a string: every tag it returns is ['#'] followed
    by a non-empty run of word characters ([\w]) in lower case; a text
    without ['#'] has no tag; and a text that is one ['#'] followed by word
    characters yields exactly that tag, lower-cased. *)
Theorem extractHashtags_tags :
  (forall s tags, IndexSyncWorker.extractHashtags (JStr s) = Ok tags ->
     forall t, In t tags ->
       exists w, t = ("#" ++ w)%string /\ w <> ""%string
         /\ Forall (fun c => IndexSyncWorker.is_word_char c = true
                             /\ IndexSyncWorker.lower_char c = c) (list_ascii_of_string w))
  /\ (forall s, ~ In "#"%char (list_ascii_of_string s) ->
        IndexSyncWorker.extractHashtags (JStr s) = Ok [])
  /\ (forall w, w <> ""%string ->
        Forall (fun c => IndexSyncWorker.is_word_char c = true) (list_ascii_of_string w) ->
        IndexSyncWorker.extractHashtags (JStr ("#" ++ w)) = Ok [("#" ++ IndexSyncWorker.lower w)%string]).
Proof.
  split; [|split].
  - intros s tags H t Ht. unfold IndexSyncWorker.extractHashtags in H.
    destruct (negb (truthy (JStr s))); injection H as <-; [contradiction|].
    apply in_map_iff in Ht. destruct Ht as [t0 [<- Ht0]].
    destruct (hashtag_matches_shape s None I t0 Ht0) as [w0 [-> [Hne Hw]]].
    exists (IndexSyncWorker.lower w0). split; [rewrite lower_app; reflexivity|]. split.
    + destruct w0; [congruence | discriminate].
    + rewrite chars_lower. apply Forall_map. eapply Forall_impl; [|exact Hw].
      intros c Hc. destruct (lower_char_props c) as [H1 H2]. rewrite H1. auto.
  - intros s Hn. unfold IndexSyncWorker.extractHashtags.
    rewrite (hashtag_matches_no_hash s Hn). destruct (negb _); reflexivity.
  - intros w Hne Hw. unfold IndexSyncWorker.extractHashtags. simpl.
    rewrite (hashtag_matches_word w "" Hw Hne). simpl. reflexivity.
Qed.

Lemma extractHashtags_tags_witness :
  IndexSyncWorker.extractHashtags (JStr "#Rocq_9") = Ok ["#rocq_9"].
Proof.
  apply (proj2 (proj2 extractHashtags_tags) "Rocq_9"); [discriminate | repeat constructor].
Defined.

Lemma worker_single_interval_witness :
  let st := IndexSyncWorker.run_commands
              [IndexSyncWorker.Start 5; IndexSyncWorker.Stop; IndexSyncWorker.Start 7; IndexSyncWorker.Start 9]
              IndexSyncWorker.initial_state in
  IndexSyncWorker.isRunning st = true
  /\ exists t ms, IndexSyncWorker.syncInterval st = Some t
                  /\ IndexSyncWorker.active_intervals st = [(t, ms)].
Proof.
  split; [reflexivity|].
  apply (proj1 (worker_single_interval
    [IndexSyncWorker.Start 5; IndexSyncWorker.Stop; IndexSyncWorker.Start 7; IndexSyncWorker.Start 9])).
  reflexivity.
Defined.

(** ** The hashtag aggregation of [syncHashtags] *)

Section HashtagAggregation.
Import IndexSyncWorker.

Local Abbreviation find_group s gs := (find (fun g => String.eqb (group_id g) s) gs).

Lemma add_to_group_find t a gs s :
  find_group s (add_to_group t a gs) =
  if String.eqb t s then
    Some (match find_group s gs with
          | Some g => mkHashtagGroup s (S (group_count g)) (Rmax (group_lastUsed g) a)
          | None => mkHashtagGroup s 1 a
          end)
  else find_group s gs.
Proof.
  induction gs as [|g r IH]; simpl.
  - destruct (String.eqb_spec t s) as [->|Hts]; reflexivity.
  - destruct (String.eqb_spec t (group_id g)) as [Ht|Ht]; simpl.
    + destruct (String.eqb_spec (group_id g) s) as [Hs|Hs].
      * rewrite Ht, Hs, String.eqb_refl. reflexivity.
      * destruct (String.eqb_spec t s); [congruence | reflexivity].
    + rewrite IH. destruct (String.eqb_spec (group_id g) s) as [Hs|Hs]; [|reflexivity].
      destruct (String.eqb_spec t s); [congruence | reflexivity].
Qed.

Lemma group_hashtags_snoc l x :
  group_hashtags (l ++ [x]) = add_to_group (fst x) (snd x) (group_hashtags l).
Proof. unfold group_hashtags. rewrite fold_left_app. reflexivity. Qed.

Lemma group_hashtags_find l s :
  match find_group s (group_hashtags l) with
  | None => ~ In s (map fst l)
  | Some g =>
      group_id g = s
      /\ group_count g = count_occ string_dec (map fst l) s
      /\ (forall x, In x l -> fst x = s -> (snd x <= group_lastUsed g)%R)
      /\ exists x, In x l /\ fst x = s /\ snd x = group_lastUsed g
  end.
Proof.
  induction l as [|x l IH] using rev_ind; [simpl; tauto|].
  rewrite group_hashtags_snoc, add_to_group_find, map_app, count_occ_app.
  destruct (String.eqb_spec (fst x) s) as [Hx|Hx].
  - subst s. destruct (find_group (fst x) (group_hashtags l)) as [g|] eqn:Hf.
    + destruct IH as [Hid [Hc [Hup [y [Hy [Hyk Hyv]]]]]].
      simpl. split; [reflexivity|]. split.
      { rewrite Hc. destruct (string_dec (fst x) (fst x)); [lia | congruence]. }
      split.
      * intros z Hz Hzk. apply in_app_or in Hz. destruct Hz as [Hz|[<-|[]]].
        -- eapply Rle_trans; [exact (Hup z Hz Hzk) | apply Rmax_l].
        -- apply Rmax_r.
      * destruct (Rle_dec (group_lastUsed g) (snd x)) as [Hle|Hle].
        -- exists x. split; [apply in_or_app; right; left; reflexivity|].
           split; [reflexivity|]. rewrite Rmax_right; auto.
        -- exists y. split; [apply in_or_app; left; exact Hy|].
           split; [exact Hyk|]. rewrite Rmax_left; [exact Hyv | lra].
    + simpl. split; [reflexivity|]. split.
      { rewrite (count_occ_not_In string_dec (map fst l) (fst x)) in IH.
        rewrite IH. destruct (string_dec (fst x) (fst x)); [reflexivity | congruence]. }
      split.
      * intros z Hz Hzk. apply in_app_or in Hz. destruct Hz as [Hz|[<-|[]]].
        -- exfalso. apply IH. rewrite <- Hzk. apply in_map. exact Hz.
        -- apply Rle_refl.
      * exists x. split; [apply in_or_app; right; left; reflexivity|]. auto.
  - destruct (find_group s (group_hashtags l)) as [g|] eqn:Hf.
    + destruct IH as [Hid [Hc [Hup [y [Hy [Hyk Hyv]]]]]].
      split; [exact Hid|]. split.
      { rewrite Hc. simpl. destruct (string_dec (fst x) s); [congruence | lia]. }
      split.
      * intros z Hz Hzk. apply in_app_or in Hz. destruct Hz as [Hz|[<-|[]]].
        -- exact (Hup z Hz Hzk).
        -- congruence.
      * exists y. split; [apply in_or_app; left; exact Hy | auto].
    + intros Hin. apply in_app_or in Hin. destruct Hin as [Hin|[Hin|[]]]; [tauto | congruence].
Qed.

Lemma add_to_group_ids t a gs :
  map group_id (add_to_group t a gs) =
  if existsb (fun g => String.eqb t (group_id g)) gs then map group_id gs
  else map group_id gs ++ [t].
Proof.
  induction gs as [|g r IH]; [reflexivity|]. simpl.
  destruct (String.eqb t (group_id g)); simpl; [reflexivity|].
  rewrite IH. destruct (existsb _ r); reflexivity.
Qed.

Lemma group_hashtags_nodup l : NoDup (map group_id (group_hashtags l)).
Proof.
  induction l as [|x l IH] using rev_ind; [constructor|].
  rewrite group_hashtags_snoc, add_to_group_ids.
  destruct (existsb _ _) eqn:E; [exact IH|].
  apply (Permutation_NoDup (Permutation_cons_append _ _)). constructor; [|exact IH].
  intros Hin. apply in_map_iff in Hin. destruct Hin as [g [Hg Hin]].
  assert (Hx : existsb (fun g => String.eqb (fst x) (group_id g)) (group_hashtags l) = true).
  { apply existsb_exists. exists g. split; [exact Hin|]. rewrite Hg. apply String.eqb_refl. }
  congruence.
Qed.

Lemma find_group_nodup gs g :
  NoDup (map group_id gs) -> In g gs -> find_group (group_id g) gs = Some g.
Proof.
  induction gs as [|h r IH]; intros Hnd Hin; [contradiction|].
  simpl in Hnd. inversion Hnd as [|? ? Hh Hr]; subst. simpl.
  destruct Hin as [<-|Hin]; [rewrite String.eqb_refl; reflexivity|].
  destruct (String.eqb_spec (group_id h) (group_id g)) as [E|E]; [|auto].
  exfalso. apply Hh. rewrite E. apply in_map. exact Hin.
Qed.

Lemma insert_by_count_desc_perm g l : Permutation (g :: l) (insert_by_count_desc g l).
Proof.
  induction l as [|h r IH]; simpl; [reflexivity|].
  destruct (Nat.ltb (group_count h) (group_count g)); [reflexivity|].
  eapply perm_trans; [apply perm_swap | apply perm_skip; exact IH].
Qed.

Lemma sort_groups_perm l : Permutation l (fold_right insert_by_count_desc [] l).
Proof.
  induction l as [|g r IH]; simpl; [constructor|].
  eapply perm_trans; [apply perm_skip; exact IH | apply insert_by_count_desc_perm].
Qed.

Lemma insert_by_count_desc_sorted g l :
  Sorted (fun a b => group_count b <= group_count a) l ->
  Sorted (fun a b => group_count b <= group_count a) (insert_by_count_desc g l).
Proof.
  induction l as [|h r IH]; intros Hs; simpl; [repeat constructor|].
  destruct (Nat.ltb_spec (group_count h) (group_count g)) as [Hlt|Hge].
  - constructor; [exact Hs | constructor; lia].
  - inversion Hs as [|? ? Hr Hhd]; subst. constructor; [apply IH; exact Hr|].
    destruct r as [|h' r']; simpl; [constructor; lia|].
    destruct (Nat.ltb (group_count h') (group_count g)); constructor; [lia|].
    inversion Hhd; assumption.
Qed.

Lemma sort_groups_sorted l :
  Sorted (fun a b => group_count b <= group_count a) (fold_right insert_by_count_desc [] l).
Proof.
  induction l as [|g r IH]; simpl; [constructor | apply insert_by_count_desc_sorted; exact IH].
Qed.

Lemma unwind_hashtags_keys posts :
  map fst (unwind_hashtags posts) = flat_map post_hashtags posts.
Proof.
  induction posts as [|p r IH]; [reflexivity|]. simpl.
  rewrite map_app, IH, map_map. simpl. rewrite map_id. reflexivity.
Qed.

Lemma unwind_hashtags_in posts x :
  In x (unwind_hashtags posts) <->
  exists p, In p posts /\ In (fst x) (post_hashtags p) /\ snd x = post_createdAt p.
Proof.
  unfold unwind_hashtags. rewrite in_flat_map. split.
  - intros [p [Hp Hx]]. apply in_map_iff in Hx. destruct Hx as [t [<- Ht]].
    exists p. auto.
  - intros [p [Hp [Ht Hs]]]. exists p. split; [exact Hp|].
    apply in_map_iff. exists (fst x). split; [|exact Ht].
    destruct x; simpl in *; congruence.
Qed.

End HashtagAggregation.

(** The hashtag aggregation of [syncHashtags] ([$unwind], [$group] by tag,
    [$sort] by [count] descending): every tag used by some post gets exactly
    one group, and no other group exists; a group's [count] is the number of
    occurrences of its tag across all posts' [hashtags]; its [lastUsed] is
    the latest [createdAt] of a post carrying the tag; and the groups come
    in non-increasing [count] order. *)
Theorem aggregate_hashtags_spec :
  forall posts,
    let A := IndexSyncWorker.aggregate_hashtags posts in
    NoDup (map IndexSyncWorker.group_id A)
    /\ (forall t, In t (map IndexSyncWorker.group_id A) <-> In t (flat_map post_hashtags posts))
    /\ (forall g, In g A ->
          IndexSyncWorker.group_count g
            = count_occ string_dec (flat_map post_hashtags posts) (IndexSyncWorker.group_id g)
          /\ (forall p, In p posts -> In (IndexSyncWorker.group_id g) (post_hashtags p) ->
                (post_createdAt p <= IndexSyncWorker.group_lastUsed g)%R)
          /\ exists p, In p posts /\ In (IndexSyncWorker.group_id g) (post_hashtags p)
                       /\ post_createdAt p = IndexSyncWorker.group_lastUsed g)
    /\ Sorted (fun a b => IndexSyncWorker.group_count b <= IndexSyncWorker.group_count a) A.
Proof.
  intros posts A. subst A. unfold IndexSyncWorker.aggregate_hashtags.
  set (l := IndexSyncWorker.unwind_hashtags posts).
  set (G := IndexSyncWorker.group_hashtags l).
  pose proof (sort_groups_perm G) as Hp.
  pose proof (group_hashtags_nodup l) as Hnd. fold G in Hnd.
  assert (Hk : map fst l = flat_map post_hashtags posts) by apply unwind_hashtags_keys.
  split; [|split; [|split]].
  - exact (Permutation_NoDup (Permutation_map _ Hp) Hnd).
  - intros t. split; intros Hin.
    + apply (Permutation_in _ (Permutation_sym (Permutation_map _ Hp))) in Hin.
      apply in_map_iff in Hin. destruct Hin as [g [<- Hg]].
      pose proof (group_hashtags_find l (IndexSyncWorker.group_id g)) as H.
      fold G in H. rewrite (find_group_nodup G g Hnd Hg) in H.
      destruct H as [_ [_ [_ [x [Hx [Hxk _]]]]]].
      rewrite <- Hk, <- Hxk. apply in_map. exact Hx.
    + apply (Permutation_in _ (Permutation_map _ Hp)).
      pose proof (group_hashtags_find l t) as H. fold G in H.
      destruct (find _ G) as [g|] eqn:Hf.
      * apply find_some in Hf. destruct Hf as [Hg Heq].
        apply String.eqb_eq in Heq. rewrite <- Heq. apply in_map. exact Hg.
      * rewrite Hk in H. contradiction.
  - intros g Hg. apply (Permutation_in _ (Permutation_sym Hp)) in Hg.
    pose proof (group_hashtags_find l (IndexSyncWorker.group_id g)) as H.
    fold G in H. rewrite (find_group_nodup G g Hnd Hg) in H.
    destruct H as [_ [Hc [Hup [x [Hx [Hxk Hxv]]]]]].
    split; [rewrite Hc, Hk; reflexivity|]. split.
    + intros p Hpin Ht.
      apply (Hup (IndexSyncWorker.group_id g, post_createdAt p)); [|reflexivity].
      apply unwind_hashtags_in. exists p. auto.
    + apply unwind_hashtags_in in Hx. destruct Hx as [p [Hpin [Ht Hs]]].
      exists p. split; [exact Hpin|]. split; [rewrite <- Hxk; exact Ht | congruence].
  - apply sort_groups_sorted.
Qed.

Lemma aggregate_hashtags_spec_witness :
  let A := IndexSyncWorker.aggregate_hashtags
             [Fixtures.tagged_post "p1" 1 ["#rocq"];
              Fixtures.tagged_post "p2" 2 ["#coq"; "#rocq"]] in
  In (hd (IndexSyncWorker.mkHashtagGroup "" 0 0) A) A
  /\ IndexSyncWorker.group_id (hd (IndexSyncWorker.mkHashtagGroup "" 0 0) A) = "#rocq"
  /\ IndexSyncWorker.group_count (hd (IndexSyncWorker.mkHashtagGroup "" 0 0) A) = 2.
Proof.
  intros A.
  assert (Hin : In (hd (IndexSyncWorker.mkHashtagGroup "" 0 0) A) A) by (simpl; left; reflexivity).
  split; [exact Hin|]. split; [reflexivity|].
  destruct (aggregate_hashtags_spec
              [Fixtures.tagged_post "p1" 1 ["#rocq"];
               Fixtures.tagged_post "p2" 2 ["#coq"; "#rocq"]]) as [_ [_ [Hg _]]].
  rewrite (proj1 (Hg _ Hin)). reflexivity.
Defined.

(** ** The cursor loop of [syncPosts] and [syncUsers] *)

Lemma str_compare_refl (a : string) : String.compare a a = Eq.
Proof.
  induction a as [|x a IH]; simpl; [reflexivity|].
  unfold Ascii.compare. rewrite N.compare_refl. exact IH.
Qed.

Lemma str_compare_lt_trans (a b c : string) :
  String.compare a b = Lt -> String.compare b c = Lt -> String.compare a c = Lt.
Proof.
  revert b c. induction a as [|x a IH]; intros [|y b] [|z c]; simpl; try discriminate; auto.
  unfold Ascii.compare.
  destruct (N.compare_spec (N_of_ascii x) (N_of_ascii y)) as [Hxy|Hxy|Hxy];
  destruct (N.compare_spec (N_of_ascii y) (N_of_ascii z)) as [Hyz|Hyz|Hyz];
  destruct (N.compare_spec (N_of_ascii x) (N_of_ascii z)) as [Hxz|Hxz|Hxz];
  intros H1 H2; try discriminate; try reflexivity; try lia.
  apply (IH b c); assumption.
Qed.

Lemma str_ltb_irrefl (a : string) : String.ltb a a = false.
Proof. unfold String.ltb. rewrite str_compare_refl. reflexivity. Qed.

Lemma str_ltb_trans (a b c : string) :
  String.ltb a b = true -> String.ltb b c = true -> String.ltb a c = true.
Proof.
  unfold String.ltb.
  destruct (String.compare a b) eqn:E1; try discriminate.
  destruct (String.compare b c) eqn:E2; try discriminate.
  rewrite (str_compare_lt_trans a b c E1 E2). reflexivity.
Qed.

Lemma str_ltb_asym (a b : string) : String.ltb a b = true -> String.ltb b a = false.
Proof.
  unfold String.ltb. rewrite (String.compare_antisym b a).
  destruct (String.compare a b); simpl; congruence.
Qed.

Lemma str_leb_trans (a b c : string) :
  String.leb a b = true -> String.leb b c = true -> String.leb a c = true.
Proof.
  unfold String.leb.
  destruct (String.compare a b) eqn:E1; try discriminate;
  destruct (String.compare b c) eqn:E2; try discriminate; intros _ _.
  - apply String.compare_eq_iff in E1, E2. subst. rewrite str_compare_refl. reflexivity.
  - apply String.compare_eq_iff in E1. subst. rewrite E2. reflexivity.
  - apply String.compare_eq_iff in E2. subst. rewrite E1. reflexivity.
  - rewrite (str_compare_lt_trans a b c E1 E2). reflexivity.
Qed.

Lemma str_leb_neq_ltb (a b : string) :
  String.leb a b = true -> a <> b -> String.ltb a b = true.
Proof.
  unfold String.leb, String.ltb. destruct (String.compare a b) eqn:E; try discriminate; auto.
  intros _ Hne. apply String.compare_eq_iff in E. contradiction.
Qed.

Lemma str_leb_false (a b : string) : String.leb a b = false -> String.leb b a = true.
Proof.
  intros H. destruct (String.leb_total a b) as [H'|H']; [congruence | exact H'].
Qed.

Lemma str_ltb_leb (a b : string) : String.ltb a b = true -> String.leb b a = false.
Proof.
  unfold String.ltb, String.leb. rewrite (String.compare_antisym b a).
  destruct (String.compare a b); simpl; congruence.
Qed.

Section SortBy.
Context {A : Type} (key : A -> string).

Lemma insert_by_perm x l : Permutation (x :: l) (IndexSyncWorker.insert_by key x l).
Proof.
  induction l as [|y r IH]; simpl; [reflexivity|].
  destruct (String.leb (key x) (key y)); [reflexivity|].
  eapply perm_trans; [apply perm_swap | apply perm_skip; exact IH].
Qed.

Lemma sort_by_perm l : Permutation l (IndexSyncWorker.sort_by key l).
Proof.
  induction l as [|x r IH]; simpl; [constructor|].
  eapply perm_trans; [apply perm_skip; exact IH | apply insert_by_perm].
Qed.

Lemma insert_by_sorted x l :
  Sorted (fun a b => String.leb (key a) (key b) = true) l ->
  Sorted (fun a b => String.leb (key a) (key b) = true) (IndexSyncWorker.insert_by key x l).
Proof.
  induction l as [|y r IH]; intros Hs; simpl; [repeat constructor|].
  destruct (String.leb (key x) (key y)) eqn:Exy.
  - constructor; [exact Hs | constructor; exact Exy].
  - apply str_leb_false in Exy.
    inversion Hs as [|? ? Hr Hhd]; subst. constructor; [apply IH; exact Hr|].
    destruct r as [|z r']; simpl; [constructor; exact Exy|].
    destruct (String.leb (key x) (key z)); constructor; [exact Exy|].
    inversion Hhd; assumption.
Qed.

Lemma sort_by_sorted l :
  Sorted (fun a b => String.leb (key a) (key b) = true) (IndexSyncWorker.sort_by key l).
Proof.
  induction l as [|x r IH]; simpl; [constructor | apply insert_by_sorted; exact IH].
Qed.

Lemma sorted_distinct_strict l :
  Sorted (fun a b => String.leb (key a) (key b) = true) l ->
  NoDup (map key l) -> StronglySorted (fun a b => String.ltb (key a) (key b) = true) l.
Proof.
  intros Hs Hnd.
  assert (Hss : StronglySorted (fun a b => String.leb (key a) (key b) = true) l).
  { apply Sorted_StronglySorted; [|exact Hs]. intros a b c. apply str_leb_trans. }
  clear Hs. induction Hss as [|a l Hss IH Hf]; constructor.
  - apply IH. simpl in Hnd. inversion Hnd; assumption.
  - simpl in Hnd. inversion Hnd as [|? ? Hna Hnl]; subst.
    apply Forall_forall. intros b Hb. apply str_leb_neq_ltb.
    + exact (proj1 (Forall_forall _ _) Hf b Hb).
    + intros E. apply Hna. rewrite E. apply in_map. exact Hb.
Qed.

Lemma strongly_sorted_unique l1 l2 :
  StronglySorted (fun a b => String.ltb (key a) (key b) = true) l1 -> StronglySorted (fun a b => String.ltb (key a) (key b) = true) l2 -> Permutation l1 l2 -> l1 = l2.
Proof.
  revert l2. induction l1 as [|a l1 IH]; intros l2 H1 H2 Hp.
  - symmetry. apply Permutation_nil. exact Hp.
  - destruct l2 as [|b l2]; [apply Permutation_sym, Permutation_nil in Hp; discriminate|].
    inversion H1 as [|? ? H1' Hf1]; subst. inversion H2 as [|? ? H2' Hf2]; subst.
    assert (Ha : In a (b :: l2)) by (apply (Permutation_in _ Hp); left; reflexivity).
    destruct Ha as [<-|Ha].
    + f_equal. apply IH; auto. exact (Permutation_cons_inv Hp).
    + exfalso.
      assert (Hba : String.ltb (key b) (key a) = true) by exact (proj1 (Forall_forall _ _) Hf2 a Ha).
      assert (Hb : In b (a :: l1)) by (apply (Permutation_in _ (Permutation_sym Hp)); left; reflexivity).
      destruct Hb as [<-|Hb].
      * rewrite str_ltb_irrefl in Hba. discriminate.
      * pose proof (proj1 (Forall_forall _ _) Hf1 b Hb) as Hab.
        rewrite (str_ltb_asym _ _ Hab) in Hba. discriminate.
Qed.

End SortBy.

Lemma perm_filter {A} (f : A -> bool) l l' :
  Permutation l l' -> Permutation (filter f l) (filter f l').
Proof.
  induction 1 as [|x l l' _ IH|x y l|l l' l'' _ IH1 _ IH2]; simpl.
  - constructor.
  - destruct (f x); [apply perm_skip|]; exact IH.
  - destruct (f x), (f y); try constructor; reflexivity.
  - eapply perm_trans; eassumption.
Qed.

Lemma strongly_sorted_filter {A} (R : A -> A -> Prop) (f : A -> bool) l :
  StronglySorted R l -> StronglySorted R (filter f l).
Proof.
  induction 1 as [|a l _ IH Hf]; simpl; [constructor|].
  destruct (f a); [|exact IH]. constructor; [exact IH|].
  apply Forall_forall. intros b Hb. apply filter_In in Hb.
  exact (proj1 (Forall_forall _ _) Hf b (proj1 Hb)).
Qed.

Lemma strongly_sorted_app {A} (R : A -> A -> Prop) l1 l2 :
  StronglySorted R (l1 ++ l2) ->
  StronglySorted R l2 /\ forall a b, In a l1 -> In b l2 -> R a b.
Proof.
  induction l1 as [|x l1 IH]; simpl; intros H; [split; [exact H | intros ? ? []]|].
  inversion H as [|? ? H' Hf]; subst. destruct (IH H') as [H2 Hab]. split; [exact H2|].
  intros a b [<-|Ha] Hb; [|auto].
  apply (proj1 (Forall_forall _ _) Hf). apply in_or_app. right. exact Hb.
Qed.

Lemma nodup_map_filter {A} (key : A -> string) (f : A -> bool) l :
  NoDup (map key l) -> NoDup (map key (filter f l)).
Proof.
  induction l as [|x l IH]; simpl; intros H; [constructor|].
  inversion H as [|? ? Hx Hl]; subst. destruct (f x); [|auto].
  simpl. constructor; [|auto]. intros Hin. apply Hx.
  apply in_map_iff in Hin. destruct Hin as [y [Hy Hin]]. rewrite <- Hy.
  apply in_map. apply filter_In in Hin. exact (proj1 Hin).
Qed.

Lemma filter_all {A} (f : A -> bool) l : (forall x, In x l -> f x = true) -> filter f l = l.
Proof.
  induction l as [|x l IH]; simpl; intros H; [reflexivity|].
  rewrite (H x (or_introl eq_refl)). f_equal. auto.
Qed.

Lemma filter_none {A} (f : A -> bool) l : (forall x, In x l -> f x = false) -> filter f l = [].
Proof.
  induction l as [|x l IH]; simpl; intros H; [reflexivity|].
  rewrite (H x (or_introl eq_refl)). auto.
Qed.

Lemma Forall2_firstn_skipn {A B} (R : A -> B -> Prop) n l1 l2 :
  Forall2 R l1 l2 -> Forall2 R (firstn n l1) (firstn n l2) /\ Forall2 R (skipn n l1) (skipn n l2).
Proof.
  intros H. revert n. induction H as [|x y l1 l2 Hxy Hl IH]; intros [|k].
  - split; constructor.
  - split; constructor.
  - split; [constructor | constructor; assumption].
  - simpl. destruct (IH k) as [H1 H2]. split; [constructor; assumption | exact H2].
Qed.

Lemma mapM_lift_ok {A B} (f : A -> result B) l docs tr :
  Forall2 (fun y d => f y = Ok d) l docs -> mapM (fun y => lift (f y)) l tr = (Ok docs, tr).
Proof.
  induction 1 as [|x d l docs Hx _ IH]; [reflexivity|]. simpl.
  rewrite (bind_ok _ _ tr d tr); [|unfold lift; rewrite Hx; reflexivity].
  rewrite (bind_ok _ _ tr docs tr IH). reflexivity.
Qed.

Lemma bulk_requests_app ev1 ev2 :
  IndexSyncWorker.bulk_requests (ev1 ++ ev2)
  = IndexSyncWorker.bulk_requests ev1 ++ IndexSyncWorker.bulk_requests ev2.
Proof.
  induction ev1 as [|e ev1 IH]; [reflexivity|].
  destruct e as [r|m]; [destruct r|]; simpl; rewrite ?IH; reflexivity.
Qed.

Lemma bulk_operations_app index d1 d2 :
  IndexSyncWorker.bulk_operations index (d1 ++ d2)
  = IndexSyncWorker.bulk_operations index d1 ++ IndexSyncWorker.bulk_operations index d2.
Proof. unfold IndexSyncWorker.bulk_operations. apply flat_map_app. Qed.

Lemma bulk_operations_length index docs :
  length (IndexSyncWorker.bulk_operations index docs) = 2 * length docs.
Proof.
  induction docs as [|d docs IH]; [reflexivity|].
  unfold IndexSyncWorker.bulk_operations in *. simpl flat_map. simpl length. rewrite IH. lia.
Qed.

Lemma worker_bulkIndex_ok es index docs tr :
  docs <> [] ->
  exists ev, IndexSyncWorker.bulkIndex es index docs tr = (Ok tt, tr ++ ev)
             /\ IndexSyncWorker.bulk_requests ev = [IndexSyncWorker.bulk_operations index docs].
Proof.
  intros Hne. destruct docs as [|d docs']; [congruence|].
  unfold IndexSyncWorker.bulkIndex, catch, bind, client_bulk, send.
  destruct (es_bulk es _) as [r|e].
  - destruct (bulk_errors r); unfold log, ret.
    + eexists. rewrite <- app_assoc. split; [reflexivity|]. reflexivity.
    + eexists. split; [reflexivity|]. reflexivity.
  - unfold log. eexists. rewrite <- app_assoc. split; [reflexivity|]. reflexivity.
Qed.

Section CursorLoop.
Context {A : Type} (es : engine) (key : A -> string) (transform : A -> result obj)
        (index : string) (coll : list A).
Hypothesis Hkeys : NoDup (map key coll).

Lemma sort_by_strict : StronglySorted (fun a b => String.ltb (key a) (key b) = true)
                                      (IndexSyncWorker.sort_by key coll).
Proof.
  apply sorted_distinct_strict; [apply sort_by_sorted|].
  apply (Permutation_NoDup (Permutation_map key (sort_by_perm key coll)) Hkeys).
Qed.

(** After a batch ending at [x], the next query ([_id > x._id]) returns
    exactly the rest of the sorted collection. *)
Lemma cursor_query_rest P Q lastId :
  IndexSyncWorker.sort_by key coll = P ++ Q ->
  (lastId = None /\ P = [] \/ exists P' x, P = P' ++ [x] /\ lastId = Some (key x)) ->
  IndexSyncWorker.sort_by key
    (filter (fun x => match lastId with None => true | Some l => String.ltb l (key x) end) coll) = Q.
Proof.
  intros HS Hlast.
  set (f := fun x => match lastId with None => true | Some l => String.ltb l (key x) end).
  pose proof sort_by_strict as Hss.
  assert (HfS : filter f (IndexSyncWorker.sort_by key coll) = Q).
  { rewrite HS, filter_app. destruct Hlast as [[-> ->]|[P' [x [-> ->]]]].
    - apply filter_all. reflexivity.
    - rewrite HS in Hss. rewrite <- app_assoc in Hss.
      destruct (strongly_sorted_app _ _ _ Hss) as [Hss2 Hlt1].
      destruct (strongly_sorted_app _ _ _ Hss2) as [_ Hlt2].
      rewrite filter_none, filter_all; [reflexivity| |].
      + intros y Hy. apply Hlt2; [left; reflexivity | exact Hy].
      + intros y Hy. apply in_app_or in Hy. destruct Hy as [Hy|[<-|[]]]; subst f; simpl.
        * apply str_ltb_asym. apply Hlt1; [exact Hy | left; reflexivity].
        * apply str_ltb_irrefl. }
  rewrite <- HfS. apply (strongly_sorted_unique key).
  - apply sorted_distinct_strict; [apply sort_by_sorted|].
    apply (Permutation_NoDup (Permutation_map key (sort_by_perm key _))).
    apply nodup_map_filter. exact Hkeys.
  - apply strongly_sorted_filter. exact Hss.
  - eapply perm_trans; [apply Permutation_sym, sort_by_perm|].
    apply perm_filter. apply sort_by_perm.
Qed.

Lemma sync_loop_covers fuel :
  forall P Q lastId total tr docs,
    IndexSyncWorker.sort_by key coll = P ++ Q ->
    (lastId = None /\ P = [] \/ exists P' x, P = P' ++ [x] /\ lastId = Some (key x)) ->
    length Q < fuel ->
    Forall2 (fun y d => transform y = Ok d) Q docs ->
    exists ev,
      IndexSyncWorker.sync_loop es key transform index coll fuel lastId total tr
        = (Ok (total + length Q), tr ++ ev)
      /\ concat (IndexSyncWorker.bulk_requests ev) = IndexSyncWorker.bulk_operations index docs
      /\ Forall (fun ops => 0 < length ops <= 2 * IndexSyncWorker.batchSize)
                (IndexSyncWorker.bulk_requests ev).
Proof.
  induction fuel as [|fuel IH]; intros P Q lastId total tr docs HS Hlast Hlen Hdocs; [lia|].
  cbn [IndexSyncWorker.sync_loop]. unfold IndexSyncWorker.find_batch.
  rewrite (cursor_query_rest P Q lastId HS Hlast).
  destruct Q as [|q Q'].
  - inversion Hdocs; subst. exists []. rewrite app_nil_r, Nat.add_0_r. auto.
  - change (firstn IndexSyncWorker.batchSize (q :: Q'))
      with (q :: firstn (pred IndexSyncWorker.batchSize) Q').
    cbv beta iota zeta.
    change (q :: firstn (pred IndexSyncWorker.batchSize) Q')
      with (firstn IndexSyncWorker.batchSize (q :: Q')).
    assert (HB : 0 < IndexSyncWorker.batchSize) by (unfold IndexSyncWorker.batchSize; lia).
    set (B := IndexSyncWorker.batchSize) in *. clearbody B.
    destruct (Forall2_firstn_skipn _ B _ _ Hdocs) as [Hd1 Hd2].
    rewrite (bind_ok _ _ tr _ tr (mapM_lift_ok transform _ _ tr Hd1)).
    assert (Hne : firstn B docs <> []).
    { inversion Hdocs; subst. destruct B; [lia|]. discriminate. }
    destruct (worker_bulkIndex_ok es index (firstn B docs) tr Hne) as [ev1 [Hb Hr1]].
    rewrite (bind_ok _ _ tr _ _ Hb).
    set (batch := firstn B (q :: Q')).
    assert (Hbne : batch <> []) by (subst batch; destruct B; [lia | discriminate]).
    destruct (IH (P ++ batch) (skipn B (q :: Q')) (Some (key (last batch q)))
                 (total + length batch) (tr ++ ev1) (skipn B docs)) as [ev2 [H2 [Hc2 Hf2]]].
    + rewrite HS, <- app_assoc. subst batch. rewrite firstn_skipn. reflexivity.
    + right. exists (P ++ removelast batch), (last batch q). split; [|reflexivity].
      rewrite <- app_assoc. f_equal. apply app_removelast_last. exact Hbne.
    + rewrite length_skipn. simpl in Hlen. destruct B; simpl; lia.
    + exact Hd2.
    + exists (ev1 ++ ev2). rewrite H2, app_assoc. split.
      * f_equal. f_equal. subst batch.
        rewrite <- (firstn_skipn B (q :: Q')) at 3. rewrite length_app. lia.
      * rewrite bulk_requests_app, concat_app, Hr1, Hc2. cbn [concat]. rewrite app_nil_r.
        rewrite <- bulk_operations_app, firstn_skipn. split; [reflexivity|].
        apply Forall_app. split; [|exact Hf2]. constructor; [|constructor].
        rewrite bulk_operations_length, length_firstn.
        inversion Hdocs; subst. destruct B; [lia|]. simpl. lia.
Qed.

End CursorLoop.

Lemma Forall2_of_exists {A B} (P : A -> B -> Prop) l :
  (forall x, In x l -> exists d, P x d) -> exists ds, Forall2 P l ds.
Proof.
  induction l as [|x l IH]; intros H; [exists []; constructor|].
  destruct (H x (or_introl eq_refl)) as [d Hd].
  destruct IH as [ds Hds]; [intros y Hy; apply H; right; exact Hy|].
  exists (d :: ds). constructor; assumption.
Qed.

Lemma sync_loop_full {A} es (key : A -> string) transform index coll tr :
  NoDup (map key coll) ->
  (forall x, In x coll -> exists d, transform x = Ok d) ->
  exists docs ev,
    Forall2 (fun y d => transform y = Ok d) (IndexSyncWorker.sort_by key coll) docs
    /\ IndexSyncWorker.sync_loop es key transform index coll (S (length coll)) None 0 tr
         = (Ok (length coll), tr ++ ev)
    /\ concat (IndexSyncWorker.bulk_requests ev) = IndexSyncWorker.bulk_operations index docs
    /\ Forall (fun ops => 0 < length ops <= 2 * IndexSyncWorker.batchSize)
              (IndexSyncWorker.bulk_requests ev).
Proof.
  intros Hkeys Hok. pose proof (sort_by_perm key coll) as Hp.
  destruct (Forall2_of_exists (fun y d => transform y = Ok d) (IndexSyncWorker.sort_by key coll))
    as [docs Hdocs].
  { intros x Hx. apply Hok. apply (Permutation_in _ (Permutation_sym Hp)). exact Hx. }
  destruct (sync_loop_covers es key transform index coll Hkeys (S (length coll))
              [] (IndexSyncWorker.sort_by key coll) None 0 tr docs) as [ev [H1 [H2 H3]]].
  - reflexivity.
  - left. split; reflexivity.
  - rewrite <- (Permutation_length Hp). lia.
  - exact Hdocs.
  - exists docs, ev. rewrite <- (Permutation_length Hp) in H1. auto.
Qed.

(** [syncPosts] and [syncUsers] walk the collection with an [_id] cursor:
    when the [_id]s are distinct (and, for posts, every post transforms),
    one pass sends bulk requests whose operations, concatenated, index the
    transform of every entity exactly once, in ascending [_id] order; every
    request carries between 1 and [batchSize] documents; and the pass ends
    normally.  The [_id] order used is a strict order that lists each
    entity once. *)
Theorem sync_indexes_each_entity_once :
  (forall es now posts tr,
     NoDup (map post_id posts) ->
     (forall p, In p posts -> exists d, IndexSyncWorker.transformPost now p = Ok d) ->
     exists docs ev,
       Forall2 (fun p d => IndexSyncWorker.transformPost now p = Ok d)
               (IndexSyncWorker.sort_by post_id posts) docs
       /\ IndexSyncWorker.syncPosts es now posts tr = (Ok tt, tr ++ ev)
       /\ concat (IndexSyncWorker.bulk_requests ev) = IndexSyncWorker.bulk_operations POSTS docs
       /\ Forall (fun ops => 0 < length ops <= 2 * IndexSyncWorker.batchSize)
                 (IndexSyncWorker.bulk_requests ev))
  /\ (forall es users tr,
        NoDup (map IndexSyncWorker.user_id users) ->
        exists docs ev,
          Forall2 (fun u d => IndexSyncWorker.transformUser u = Ok d)
                  (IndexSyncWorker.sort_by IndexSyncWorker.user_id users) docs
          /\ IndexSyncWorker.syncUsers es users tr = (Ok tt, tr ++ ev)
          /\ concat (IndexSyncWorker.bulk_requests ev) = IndexSyncWorker.bulk_operations USERS docs
          /\ Forall (fun ops => 0 < length ops <= 2 * IndexSyncWorker.batchSize)
                    (IndexSyncWorker.bulk_requests ev))
  /\ (forall (A : Type) (key : A -> string) l,
        NoDup (map key l) ->
        Permutation l (IndexSyncWorker.sort_by key l)
        /\ StronglySorted (fun a b => String.ltb (key a) (key b) = true)
                          (IndexSyncWorker.sort_by key l)).
Proof.
  split; [|split].
  - intros es now posts tr Hkeys Hok.
    destruct (sync_loop_full es post_id (IndexSyncWorker.transformPost now) POSTS posts tr Hkeys Hok)
      as [docs [ev [Hd [H1 [H2 H3]]]]].
    exists docs, ev. split; [exact Hd|]. split; [|auto].
    unfold IndexSyncWorker.syncPosts, catch. rewrite (bind_ok _ _ tr _ _ H1). reflexivity.
  - intros es users tr Hkeys.
    destruct (sync_loop_full es IndexSyncWorker.user_id IndexSyncWorker.transformUser USERS users tr
                Hkeys (fun u _ => ex_intro _ _ eq_refl))
      as [docs [ev [Hd [H1 [H2 H3]]]]].
    exists docs, ev. split; [exact Hd|]. split; [|auto].
    unfold IndexSyncWorker.syncUsers, catch. rewrite (bind_ok _ _ tr _ _ H1). reflexivity.
  - intros A key l Hkeys. split; [apply sort_by_perm | apply sort_by_strict; exact Hkeys].
Qed.

Lemma sync_indexes_each_entity_once_witness :
  (exists docs ev,
     IndexSyncWorker.syncPosts Fixtures.engine_down 0
       [Fixtures.tagged_post "b" 0 []; Fixtures.tagged_post "a" 0 []] [] = (Ok tt, [] ++ ev)
     /\ concat (IndexSyncWorker.bulk_requests ev) = IndexSyncWorker.bulk_operations POSTS docs
     /\ length docs = 2)
  /\ (exists docs ev,
        IndexSyncWorker.syncUsers Fixtures.engine_down
          [Fixtures.plain_user "u2"; Fixtures.plain_user "u1"] [] = (Ok tt, [] ++ ev)
        /\ concat (IndexSyncWorker.bulk_requests ev) = IndexSyncWorker.bulk_operations USERS docs
        /\ length docs = 2)
  /\ StronglySorted (fun a b => String.ltb (IndexSyncWorker.user_id a) (IndexSyncWorker.user_id b) = true)
       (IndexSyncWorker.sort_by IndexSyncWorker.user_id
          [Fixtures.plain_user "u2"; Fixtures.plain_user "u1"]).
Proof.
  split; [|split].
  - destruct (proj1 sync_indexes_each_entity_once Fixtures.engine_down 0%R
                [Fixtures.tagged_post "b" 0 []; Fixtures.tagged_post "a" 0 []] [])
      as [docs [ev [Hd [H1 [H2 _]]]]].
    + repeat constructor; simpl; intuition discriminate.
    + intros p [<-|[<-|[]]]; eexists; reflexivity.
    + exists docs, ev. split; [exact H1|]. split; [exact H2|].
      rewrite <- (Forall2_length Hd). reflexivity.
  - destruct (proj1 (proj2 sync_indexes_each_entity_once) Fixtures.engine_down
                [Fixtures.plain_user "u2"; Fixtures.plain_user "u1"] [])
      as [docs [ev [Hd [H1 [H2 _]]]]].
    + repeat constructor; simpl; intuition discriminate.
    + exists docs, ev. split; [exact H1|]. split; [exact H2|].
      rewrite <- (Forall2_length Hd). reflexivity.
  - refine (proj2 (proj2 (proj2 sync_indexes_each_entity_once) _ IndexSyncWorker.user_id
                 [Fixtures.plain_user "u2"; Fixtures.plain_user "u1"] _)).
    repeat constructor; simpl; intuition discriminate.
Defined.

Lemma bind_fail {A B} (m : M A) (k : A -> M B) tr e tr' :
  m tr = (Throw e, tr') -> bind m k tr = (Throw e, tr').
Proof. intros H. unfold bind. rewrite H. reflexivity. Qed.

Lemma mapM_lift_fail {A B} (f : A -> result B) l1 d1 x e l2 tr :
  Forall2 (fun y d => f y = Ok d) l1 d1 -> f x = Throw e ->
  mapM (fun y => lift (f y)) (l1 ++ x :: l2) tr = (Throw e, tr).
Proof.
  intros H Hx. induction H as [|y d l1 d1 Hy _ IH]; simpl.
  - apply bind_fail. unfold lift. rewrite Hx. reflexivity.
  - rewrite (bind_ok _ _ tr d tr); [|unfold lift; rewrite Hy; reflexivity].
    apply bind_fail. exact IH.
Qed.

Lemma firstn_add {A} n m (l : list A) : firstn (n + m) l = firstn n l ++ firstn m (skipn n l).
Proof.
  revert l. induction n as [|n IH]; intros l; [reflexivity|].
  destruct l as [|x l]; simpl; [rewrite firstn_nil; reflexivity | rewrite IH; reflexivity].
Qed.

Section CursorAbort.
Context {A : Type} (es : engine) (key : A -> string) (transform : A -> result obj)
        (index : string) (coll : list A).
Hypothesis Hkeys : NoDup (map key coll).

Lemma sync_loop_aborts fuel :
  forall P Q1 qb Q2 lastId total tr docs1 e,
    IndexSyncWorker.sort_by key coll = P ++ Q1 ++ qb :: Q2 ->
    (lastId = None /\ P = [] \/ exists P' x, P = P' ++ [x] /\ lastId = Some (key x)) ->
    length (Q1 ++ qb :: Q2) < fuel ->
    Forall2 (fun y d => transform y = Ok d) Q1 docs1 ->
    transform qb = Throw e ->
    exists ev,
      IndexSyncWorker.sync_loop es key transform index coll fuel lastId total tr = (Throw e, tr ++ ev)
      /\ concat (IndexSyncWorker.bulk_requests ev)
         = IndexSyncWorker.bulk_operations index
             (firstn (IndexSyncWorker.batchSize * (length Q1 / IndexSyncWorker.batchSize)) docs1).
Proof.
  assert (HB : 0 < IndexSyncWorker.batchSize) by (unfold IndexSyncWorker.batchSize; lia).
  induction fuel as [|fuel IH];
    intros P Q1 qb Q2 lastId total tr docs1 e HS Hlast Hlen Hdocs He; [lia|].
  cbn [IndexSyncWorker.sync_loop]. unfold IndexSyncWorker.find_batch.
  rewrite (cursor_query_rest key coll Hkeys P _ lastId HS Hlast).
  set (B := IndexSyncWorker.batchSize) in *. clearbody B.
  destruct (firstn B (Q1 ++ qb :: Q2)) as [|x r] eqn:Eb.
  { exfalso. destruct B; [lia|]. destruct Q1; discriminate. }
  cbv beta iota zeta.
  destruct (Nat.lt_ge_cases (length Q1) B) as [Hs|Hg].
  - rewrite firstn_app in Eb.
    destruct (B - length Q1) as [|k] eqn:Ek; [lia|]. simpl in Eb.
    rewrite firstn_all2 in Eb by lia.
    rewrite (bind_fail _ _ tr e tr); [|rewrite <- Eb; apply mapM_lift_fail with (d1 := docs1); assumption].
    exists []. rewrite app_nil_r. split; [reflexivity|].
    rewrite Nat.div_small by exact Hs. rewrite Nat.mul_0_r. reflexivity.
  - rewrite firstn_app in Eb.
    replace (B - length Q1) with 0 in Eb by lia. rewrite app_nil_r in Eb.
    destruct (Forall2_firstn_skipn _ B _ _ Hdocs) as [Hd1 Hd2].
    rewrite <- Eb.
    rewrite (bind_ok _ _ tr _ tr (mapM_lift_ok transform _ _ tr Hd1)).
    assert (Hne : firstn B docs1 <> []).
    { intros E. apply (f_equal (@length obj)) in E. rewrite length_firstn in E.
      rewrite <- (Forall2_length Hdocs) in E. simpl in E. lia. }
    destruct (worker_bulkIndex_ok es index (firstn B docs1) tr Hne) as [ev1 [Hb Hr1]].
    rewrite (bind_ok _ _ tr _ _ Hb).
    assert (Hbne : firstn B Q1 <> []) by (rewrite Eb; discriminate).
    destruct (IH (P ++ firstn B Q1) (skipn B Q1) qb Q2 (Some (key (last (firstn B Q1) x)))
                 (total + length (firstn B Q1)) (tr ++ ev1) (skipn B docs1) e)
      as [ev2 [H2 Hc2]].
    + rewrite HS, <- !app_assoc. rewrite <- (firstn_skipn B Q1) at 1. rewrite <- app_assoc. reflexivity.
    + right. exists (P ++ removelast (firstn B Q1)), (last (firstn B Q1) x). split; [|reflexivity].
      rewrite <- app_assoc. f_equal. apply app_removelast_last. exact Hbne.
    + rewrite length_app in *. rewrite length_skipn. simpl in *. lia.
    + exact Hd2.
    + exact He.
    + exists (ev1 ++ ev2). rewrite H2, app_assoc. split; [reflexivity|].
      rewrite bulk_requests_app, concat_app, Hr1, Hc2. cbn [concat]. rewrite app_nil_r.
      rewrite <- bulk_operations_app, <- firstn_add. f_equal. f_equal.
      rewrite length_skipn.
      replace (length Q1) with (1 * B + (length Q1 - B)) at 2 by lia.
      rewrite Nat.div_add_l by lia. lia.
Qed.

End CursorAbort.

(** [syncPosts] stops at the first post, in [_id] order, whose transform
    throws (a caption that is truthy but not a string): the pass indexes
    exactly the posts of the full batches before that post's batch, that is
    the first [batchSize * (n / batchSize)] posts if [n] posts precede it,
    then logs the posts sync error and resolves.  That post, the rest of its
    batch and every later post are not indexed. *)
Theorem syncPosts_stops_at_failing_post :
  forall es now posts S1 p S2 e tr,
    NoDup (map post_id posts) ->
    IndexSyncWorker.sort_by post_id posts = S1 ++ p :: S2 ->
    (forall q, In q S1 -> exists d, IndexSyncWorker.transformPost now q = Ok d) ->
    IndexSyncWorker.transformPost now p = Throw e ->
    exists docs ev,
      Forall2 (fun q d => IndexSyncWorker.transformPost now q = Ok d)
        (firstn (IndexSyncWorker.batchSize * (length S1 / IndexSyncWorker.batchSize)) S1) docs
      /\ IndexSyncWorker.syncPosts es now posts tr
           = (Ok tt, tr ++ ev ++ [Log "[IndexSync] Posts sync error:"])
      /\ concat (IndexSyncWorker.bulk_requests ev) = IndexSyncWorker.bulk_operations POSTS docs.
Proof.
  intros es now posts S1 p S2 e tr Hkeys HS Hok He.
  destruct (Forall2_of_exists (fun q d => IndexSyncWorker.transformPost now q = Ok d) S1 Hok)
    as [docs1 Hd].
  destruct (sync_loop_aborts es post_id (IndexSyncWorker.transformPost now) POSTS posts Hkeys
              (S (length posts)) [] S1 p S2 None 0 tr docs1 e) as [ev [H1 H2]].
  - exact HS.
  - left. split; reflexivity.
  - rewrite <- HS, <- (Permutation_length (sort_by_perm post_id posts)). lia.
  - exact Hd.
  - exact He.
  - exists (firstn (IndexSyncWorker.batchSize * (length S1 / IndexSyncWorker.batchSize)) docs1), ev.
    split; [apply Forall2_firstn_skipn; exact Hd|]. split; [|exact H2].
    unfold IndexSyncWorker.syncPosts, catch. rewrite (bind_fail _ _ tr e _ H1).
    unfold log. rewrite app_assoc. reflexivity.
Qed.

Lemma syncPosts_stops_at_failing_post_witness :
  exists ev,
    IndexSyncWorker.syncPosts Fixtures.engine_down 0
      [Fixtures.boolean_caption_post "b"; Fixtures.tagged_post "a" 0 []] []
      = (Ok tt, [] ++ ev ++ [Log "[IndexSync] Posts sync error:"])
    /\ concat (IndexSyncWorker.bulk_requests ev) = [].
Proof.
  destruct (syncPosts_stops_at_failing_post Fixtures.engine_down 0%R
              [Fixtures.boolean_caption_post "b"; Fixtures.tagged_post "a" 0 []]
              [Fixtures.tagged_post "a" 0 []] (Fixtures.boolean_caption_post "b") [] TypeError [])
    as [docs [ev [Hd [H1 H2]]]].
  - repeat constructor; simpl; intuition discriminate.
  - reflexivity.
  - intros q [<-|[]]. eexists. reflexivity.
  - reflexivity.
  - exists ev. split; [exact H1|]. rewrite H2. inversion Hd. reflexivity.
Defined.

(** ** Further read and write paths *)

(** [autocomplete] always resolves, and with at most [size] suggestions:
    the merged list is cut to [size], and any failure (an engine error, or
    a caption or prefix of the wrong type) gives the empty list. *)
Theorem autocomplete_at_most_size :
  forall es numberToString prefix o tr,
    exists l, fst (SearchService.autocomplete es numberToString prefix o tr) = Ok l
              /\ length l <= SearchService.lo_size o.
Proof.
  intros es numberToString prefix o tr.
  apply yields_total.
  - unfold SearchService.autocomplete. apply yields_catch.
    + apply yields_bind. intros s1. apply yields_bind. intros s2.
      apply yields_bind. intros s3. apply yields_ret. apply firstn_le_length.
    + intros e. apply yields_bind. intros _. apply yields_ret. simpl. lia.
  - apply catch_total. intros e tr'. exists []. reflexivity.
Qed.

(** [getTrending] computes [since], [hours] hours before now.  When
    [since] is a valid date it sends one search, to the posts index when
    [type] is ['posts'] and to the hashtags index for every other type
    (['users'] included), asking for [size] hits; it resolves with the hits
    as [{ id, ...source }] in the engine's order, or with [] after logging
    when the search fails.  When [since] lies beyond the range of dates,
    [toISOString] throws a RangeError inside the [try]: no search is sent
    and [] is returned after logging. *)
Theorem getTrending_index_and_result :
  forall es now toISOString o tr,
    let index := if String.eqb (SearchService.to_type o) "posts" then POSTS else HASHTAGS in
    ((Rabs (now - INR (SearchService.to_hours o) * 60 * 60 * 1000) <= 864 * 10 ^ 13)%R ->
     exists body,
       get body "size" = num (SearchService.to_size o)
       /\ match es_search es [index] body with
          | Ok r =>
              SearchService.getTrending es now toISOString o tr
              = (Ok (map (fun h => JObj (spread [("id", JStr (hit_id h))] (hit_source h))) (res_hits r)),
                 tr ++ [Req (ReqSearch [index] body)])
          | Throw _ =>
              SearchService.getTrending es now toISOString o tr
              = (Ok [], (tr ++ [Req (ReqSearch [index] body)]) ++ [Log "[SearchService] Trending error:"])
          end)
    /\ ((864 * 10 ^ 13 < Rabs (now - INR (SearchService.to_hours o) * 60 * 60 * 1000))%R ->
        SearchService.getTrending es now toISOString o tr
        = (Ok [], tr ++ [Log "[SearchService] Trending error:"])).
Proof.
  intros es now iso o tr index. split.
  - intros Hr.
    remember (SearchService.getTrending es now iso o tr) as G eqn:HG.
    unfold SearchService.getTrending, catch, bind, lift, SearchService.date_iso,
      client_search, send, SearchService.posts_or in HG.
    cbv zeta in HG.
    destruct (Rle_dec _ _) as [_|Hn]; [|contradiction].
    match type of HG with context [es_search es _ ?b] => exists b end.
    split; [reflexivity|]. subst G index.
    destruct (es_search es _ _) as [r|e]; reflexivity.
  - intros Hr.
    unfold SearchService.getTrending, catch, bind, lift, SearchService.date_iso.
    cbv zeta.
    destruct (Rle_dec _ _) as [Hle|_]; [lra|reflexivity].
Qed.

Lemma catch_unit_ok (m : M unit) (h : error -> M unit) tr :
  (forall e tr', fst (h e tr') = Ok tt) -> fst (catch m h tr) = Ok tt.
Proof.
  intros Hh. unfold catch. destruct (m tr) as [[[]|e] tr']; [reflexivity | apply Hh].
Qed.

(** None of the worker's sync and real-time operations ever rejects: each
    catches every error, and its handler only logs (or, for a 404 on
    delete, does nothing).  So the [Promise.all] of [syncAll] always
    resolves and its [catch] is never taken. *)
Theorem worker_operations_never_reject :
  forall es now posts users post user index id tr,
    fst (IndexSyncWorker.syncPosts es now posts tr) = Ok tt
    /\ fst (IndexSyncWorker.syncUsers es users tr) = Ok tt
    /\ fst (IndexSyncWorker.syncHashtags es now posts tr) = Ok tt
    /\ fst (IndexSyncWorker.indexPost es now post tr) = Ok tt
    /\ fst (IndexSyncWorker.indexUser es user tr) = Ok tt
    /\ fst (IndexSyncWorker.deleteDocument es index id tr) = Ok tt.
Proof.
  intros. repeat split; apply catch_unit_ok; intros e tr'; try reflexivity.
  destruct e as [|n| |]; try reflexivity.
  do 405 (destruct n as [|n]; [reflexivity|]). reflexivity.
Qed.

(** [s.replace('#', '')], used for a hashtag document's [tag] and for the
    hashtag prefix of [autocomplete], removes the first ['#'] only: a text
    without ['#'] is unchanged, a text [a + '#' + b] with no ['#'] in [a]
    becomes [a + b] (later ['#']s stay), and so a tag ['#' + w] as
    [extractHashtags] produces becomes [w]. *)
Theorem replace_first_hash_spec :
  (forall s, ~ In "#"%char (list_ascii_of_string s) -> replace_first_hash s = s)
  /\ (forall a b, ~ In "#"%char (list_ascii_of_string a) ->
        replace_first_hash (a ++ "#" ++ b) = (a ++ b)%string)
  /\ (forall w, replace_first_hash ("#" ++ w) = w).
Proof.
  split; [|split].
  - induction s as [|c r IH]; intros Hn; [reflexivity|]. simpl in *.
    destruct (Ascii.eqb_spec c "#"%char) as [->|Hc]; [tauto|].
    rewrite IH; [reflexivity | tauto].
  - induction a as [|c r IH]; intros b Hn; [reflexivity|]. simpl in *.
    destruct (Ascii.eqb_spec c "#"%char) as [->|Hc]; [tauto|].
    rewrite IH; [reflexivity | tauto].
  - intros w. reflexivity.
Qed.

Lemma replace_first_hash_spec_witness :
  replace_first_hash "rocq" = "rocq"
  /\ replace_first_hash ("ab" ++ "#" ++ "c#d") = ("ab" ++ "c#d")%string.
Proof.
  split.
  - apply (proj1 replace_first_hash_spec). simpl. intuition discriminate.
  - apply (proj1 (proj2 replace_first_hash_spec)). simpl. intuition discriminate.
Defined.

Lemma getTrending_index_and_result_witness :
  (exists body,
    get body "size" = num 5
    /\ SearchService.getTrending Fixtures.engine_down 0 (fun _ => "")
         (SearchService.mkTrendingOptions "users" 5 24 JNull) []
       = (Ok [], ([] ++ [Req (ReqSearch [HASHTAGS] body)]) ++ [Log "[SearchService] Trending error:"]))
  /\ SearchService.getTrending Fixtures.chatty_engine (10 ^ 16) (fun _ => "")
       (SearchService.mkTrendingOptions "posts" 5 0 JNull) []
     = (Ok [], [] ++ [Log "[SearchService] Trending error:"]).
Proof.
  split.
  - apply (proj1 (getTrending_index_and_result Fixtures.engine_down 0%R (fun _ => ""%string)
                    (SearchService.mkTrendingOptions "users" 5 24 JNull) [])).
    simpl INR. rewrite Rabs_left by lra. lra.
  - apply (proj2 (getTrending_index_and_result Fixtures.chatty_engine (10 ^ 16)%R (fun _ => ""%string)
                    (SearchService.mkTrendingOptions "posts" 5 0 JNull) [])).
    simpl INR. rewrite Rabs_right by lra. lra.
Defined.
